(** * Repository mutation and branch lifecycle: a shallow embedding

    The three core components of the repository are embedded as Rocq
    functions and their specified properties are proved (or refuted at a
    concrete input):

    - [CodeFileManager]  (src/tools/code_file_manager.py): line-range
      normalisation and in-place replacement of a line range;
    - [FileBasedStore]   (src/tools/data_store.py): the prompt/answer cache
      kept in an index table and positional payload files;
    - [GitManager]       (src/tools/git_manager.py): the branch life cycle
      over one working clone.

    Python values are modelled as follows.  An [int] is a [Z].  A [str] is a
    list of Unicode code points ([N]); [bytes] is a list of byte values.
    A raised exception is the [Raise] case of [result]; code that reads and
    writes files threads an explicit world through a small state-and-error
    monad. *)

From Stdlib Require Import ZArith NArith List Bool Lia String Ascii.
From stdpp Require Import base option list gmap strings.

Local Open Scope Z_scope.

(** ** Python strings *)

(** A Python [str]: a sequence of code points. *)
Abbreviation str := (list N).

(** The code points of an ASCII literal. *)
Definition py (s : string) : str :=
  map N_of_ascii (list_ascii_of_string s).

Definition LF : N := 10%N.
Definition CR : N := 13%N.
Definition SPACE : N := 32%N.
Definition SLASH : N := 47%N.

(** [len(x)] as a Python integer. *)
Definition len {A} (l : list A) : Z := Z.of_nat (length l).

(** [str.isspace] on one character: the code points CPython's
    [_PyUnicode_IsWhitespace] accepts. *)
Definition is_space (c : N) : bool :=
  ((9 <=? c) && (c <=? 13) || (28 <=? c) && (c <=? 32)
   || (c =? 133) || (c =? 160) || (c =? 5760)
   || (8192 <=? c) && (c <=? 8202)
   || (c =? 8232) || (c =? 8233) || (c =? 8239) || (c =? 8287)
   || (c =? 12288))%N.

(** [s.lstrip(chars)] for a set of characters given as a predicate. *)
Fixpoint lstrip_by (p : N -> bool) (s : str) : str :=
  match s with
  | c :: s' => if p c then lstrip_by p s' else s
  | [] => []
  end.

Definition rstrip_by (p : N -> bool) (s : str) : str :=
  rev (lstrip_by p (rev s)).

(** [s.strip()]: whitespace removed at both ends. *)
Definition strip (s : str) : str := rstrip_by is_space (lstrip_by is_space s).

(** [s.lstrip(" ")]. *)
Definition lstrip_spaces (s : str) : str := lstrip_by (N.eqb SPACE) s.

(** Truthiness of a string: it is not empty. *)
Definition truthy (s : str) : bool :=
  match s with [] => false | _ :: _ => true end.

(** [s.split(sep)] for a one-character separator: never the empty list. *)
Fixpoint split_on (sep : N) (s : str) : list str :=
  match s with
  | [] => [[]]
  | c :: s' =>
      if (c =? sep)%N then [] :: split_on sep s'
      else match split_on sep s' with
           | l :: ls => (c :: l) :: ls
           | [] => [[c]]
           end
  end.

(** [sep.join(parts)]. *)
Fixpoint join (sep : str) (parts : list str) : str :=
  match parts with
  | [] => []
  | [l] => l
  | l :: ls => l ++ sep ++ join sep ls
  end.

(** [" " * n]: the empty string for [n <= 0]. *)
Definition spaces (n : Z) : str := repeat SPACE (Z.to_nat n).

(** [s.startswith(p)]. *)
Fixpoint startswith (p s : str) : bool :=
  match p, s with
  | [], _ => true
  | a :: p', b :: s' => (a =? b)%N && startswith p' s'
  | _ :: _, [] => false
  end.

(** [s.endswith(p)]. *)
Definition endswith (p s : str) : bool := startswith (rev p) (rev s).

(** [p in s] for strings: [p] occurs as a contiguous run of [s]. *)
Fixpoint str_in (p s : str) : bool :=
  startswith p s ||
  match s with
  | [] => false
  | _ :: s' => str_in p s'
  end.

(** ** Python sequences *)

(** A slice bound as Python resolves it against a length: a negative bound
    counts from the end, and the result is clamped into [0 .. n]. *)
Definition slice_bound (n : nat) (k : Z) : nat :=
  if k <? 0 then Z.to_nat (Z.max 0 (k + Z.of_nat n))
  else Nat.min (Z.to_nat k) n.

(** [l[i:j]]. *)
Definition py_slice {A} (l : list A) (i j : Z) : list A :=
  let lo := slice_bound (length l) i in
  let hi := slice_bound (length l) j in
  take (hi - lo) (drop lo l).

(** [l[i:j] = new]: the slice is replaced; an empty slice ([j] before [i])
    inserts at [i]. *)
Definition py_slice_assign {A} (l : list A) (i j : Z) (new : list A) : list A :=
  let lo := slice_bound (length l) i in
  let hi := Nat.max lo (slice_bound (length l) j) in
  take lo l ++ new ++ drop hi l.

(** ** Exceptions and results

    [AttributeError] carries the attribute that the object does not
    have.  [NotModelled] is no exception of Python: it ends a run that
    leaves what the development describes (a table whose typing by the CSV
    reader is not settled below, base64 text that is not canonical, a path
    that climbs out of the working directory, a git command whose outcome
    the state of the clone does not settle), so that no property speaks
    about such a run. *)

Inductive exn : Type :=
  | ValueError (msg : string)
  | FileNotFoundError
  | IsADirectoryError
  | NotADirectoryError
  | IndexError
  | AttributeError (attribute : string)
  | UnicodeEncodeError
  | UnicodeDecodeError
  | GitCommandError
  | NotModelled.

Inductive result (A : Type) : Type :=
  | Ok (a : A)
  | Raise (e : exn).
Arguments Ok {A} a.
Arguments Raise {A} e.

(** The spec's names for the usage errors, as the code raises them. *)
Definition InvalidRangeShape : exn :=
  ValueError "Invalid line_range. Must be an int or a tuple of two ints.".
Definition InvalidRangeBounds : exn :=
  ValueError "Invalid line_range. Invalid boundaries.".
Definition NotInitialized : exn :=
  ValueError "Repository is not initialized. Call initialize() first.".
Definition InvalidRepositoryURL : exn :=
  ValueError "Invalid repository URL.".

(** ** State and exceptions

    A computation over a state [S] that returns an [A] or raises; the state
    reached when an exception is raised is kept, as in Python. *)

Definition M (S A : Type) : Type := S -> result A * S.

Definition ret {S A} (a : A) : M S A := fun s => (Ok a, s).

Definition raise {S A} (e : exn) : M S A := fun s => (Raise e, s).

Definition bind {S A B} (m : M S A) (k : A -> M S B) : M S B :=
  fun s =>
    match m s with
    | (Ok a, s') => k a s'
    | (Raise e, s') => (Raise e, s')
    end.

Definition lift {S A} (r : result A) : M S A := fun s => (r, s).

(** [try: body except <exception>: handler]: only the named exception is
    caught, any other one propagates. *)
Definition try_except {S A} (body : M S A) (catches : exn -> bool)
    (handler : M S A) : M S A :=
  fun s =>
    match body s with
    | (Raise e, s') => if catches e then handler s' else (Raise e, s')
    | r => r
    end.

Declare Scope py_scope.
Delimit Scope py_scope with py.
Notation "x <- m ;; k" := (bind m (fun x => k))
  (at level 60, m at next level, right associativity) : py_scope.
Notation "m ;;; k" := (bind m (fun _ => k))
  (at level 60, right associativity) : py_scope.

Definition is_FileNotFoundError (e : exn) : bool :=
  match e with FileNotFoundError => true | _ => false end.

(** ** The text-range editor (src/tools/code_file_manager.py) *)

Module CodeFileManager.

(** The logger, observed at level ERROR: [LOGGER.exception] and
    [LOGGER.error] records are kept with their message, DEBUG and INFO
    records leave no trace. *)
Inductive log_record : Type :=
  | LogException (msg : string)
  | LogError (msg : string).

(** The world of the editor: the regular files and the log.  A file holds
    decoded text and is filed under its path in normal form (components
    joined by single slashes, without ["."] and [".."]); a path that starts
    with a slash is absolute, any other is relative to the working
    directory.  A directory is there where a file lies below it, and so are
    the two starting points, the root and the working directory.  Links,
    permissions, empty directories and special files are not represented. *)
Record World : Type := mkWorld {
  fs : gmap str str;
  log : list log_record;
}.

Record t : Type := mkManager { repository_location : str }.

(** The [line_range] argument: an [int], a tuple of ints of any length, or a
    value of another shape. *)
Inductive line_range : Type :=
  | LInt (r : Z)
  | LTuple (items : list Z)
  | LOther.

(** [os.path.join(a, p)] as [posixpath] defines it for two components. *)
Definition os_path_join (a p : str) : str :=
  if startswith (py "/") p then p
  else if negb (truthy a) || endswith (py "/") a then a ++ p
  else a ++ py "/" ++ p.

(** Text mode with universal newlines: ["\r\n"] and a lone ["\r"] are read
    as ["\n"]. *)
Fixpoint universal_newlines (s : str) : str :=
  match s with
  | [] => []
  | c :: s' =>
      if (c =? CR)%N then
        match s' with
        | d :: s'' => if (d =? LF)%N then universal_newlines s'
                      else LF :: universal_newlines s'
        | [] => [LF]
        end
      else c :: universal_newlines s'
  end.

(** The lines of a text, each with its terminating ["\n"] (the last one may
    have none). *)
Fixpoint keepends (s : str) : list str :=
  match s with
  | [] => []
  | c :: s' =>
      if (c =? LF)%N then [c] :: keepends s'
      else match keepends s' with
           | l :: ls => (c :: l) :: ls
           | [] => [[c]]
           end
  end.

(** What the file system holds at a path: a regular file (with the key it
    is filed under), a directory, nothing in a directory that is there,
    nothing because a directory on the way is missing, or nothing since
    the way leads through a regular file.  A path with a NUL character is
    refused before the file system is asked, and a relative path that
    climbs above the working directory leaves the files described here. *)
Inductive path_status : Type :=
  | IsFile (key text : str)
  | IsDirectory
  | Creatable (key : str)
  | Missing
  | ThroughFile
  | Invalid
  | Outside.

(** The path of the directory reached through [dirs], ending in a
    slash. *)
Definition dir_prefix (absolute : bool) (dirs : list str) : str :=
  (if absolute then [SLASH] else []) ++ concat (map (fun d => d ++ [SLASH]) dirs).

(** A file lies below the directory of that path. *)
Definition has_directory (files : gmap str str) (prefix : str) : bool :=
  existsb (fun entry => startswith prefix entry.1) (map_to_list files).

(** Path resolution, component by component: an empty component and ["."]
    stay where they are, [".."] goes up, a name goes down. *)
Fixpoint walk (files : gmap str str) (absolute : bool) (dirs components : list str)
    : path_status :=
  match components with
  | [] => IsDirectory
  | c :: rest =>
      if bool_decide (c = []) || bool_decide (c = py ".")
      then walk files absolute dirs rest
      else if bool_decide (c = py "..") then
        match dirs with
        | [] => if absolute then walk files absolute [] rest else Outside
        | _ :: _ => walk files absolute (removelast dirs) rest
        end
      else
        let key := dir_prefix absolute dirs ++ c in
        match files !! key with
        | Some text => if bool_decide (rest = []) then IsFile key text else ThroughFile
        | None =>
            if has_directory files (key ++ [SLASH])
            then walk files absolute (dirs ++ [c]) rest
            else if bool_decide (rest = []) then Creatable key else Missing
        end
  end.

(** A path that is the key of a file names that file. *)
Definition stat (files : gmap str str) (path : str) : path_status :=
  match files !! path with
  | Some text => IsFile path text
  | None =>
      if existsb (N.eqb 0) path then Invalid
      else if bool_decide (path = []) then Missing
      else walk files (startswith [SLASH] path) [] (split_on SLASH path)
  end.

(** The exception [open] raises where the path names no regular file. *)
Definition open_error (st : path_status) : exn :=
  match st with
  | IsDirectory => IsADirectoryError
  | ThroughFile => NotADirectoryError
  | Invalid => ValueError "embedded null byte"
  | Outside => NotModelled
  | _ => FileNotFoundError
  end.

(** [open(path, "r", encoding="utf-8")] followed by [file.readlines()]. *)
Definition readlines (path : str) : M World (list str) :=
  fun w =>
    match stat (fs w) path with
    | IsFile _ text => (Ok (keepends (universal_newlines text)), w)
    | st => (Raise (open_error st), w)
    end.


(** [open(path, "w", encoding="utf-8")] followed by
    [file.writelines(lines)]: the file is replaced by the lines, one after
    the other (POSIX: ["\n"] is written as it is), and it is created when
    nothing is there.  The lines are taken to be text that UTF-8 encodes:
    the encoder's refusal of a lone surrogate, which leaves the file cut
    short, is not modelled, and the properties of a write that depend on it
    ask for encodable text. *)
Definition writelines (path : str) (lines : list str) : M World unit :=
  fun w =>
    match stat (fs w) path with
    | IsFile key _ | Creatable key =>
        (Ok tt, mkWorld (<[key := concat lines]> (fs w)) (log w))
    | st => (Raise (open_error st), w)
    end.

Definition LOGGER_exception (msg : string) : M World unit :=
  fun w => (Ok tt, mkWorld (fs w) (log w ++ [LogException msg])).

Definition _normalize_line_range (line_range : line_range)
    (line_count : Z) (padding : Z) : result (Z * Z) :=
  match line_range with
  | LInt r =>
      let start_line := Z.max 1 (r - padding) in
      let end_line := Z.min line_count (r + padding) in
      Ok (start_line, end_line)
  | LTuple [a; b] =>
      let start_line := Z.max 1 (a - padding) in
      let end_line := Z.min line_count (b + padding) in
      Ok (start_line, end_line)
  | _ => Raise InvalidRangeShape
  end.

(** [len(line) - len(line.lstrip(" "))]. *)
Definition leading_spaces (line : str) : Z :=
  len line - len (lstrip_spaces line).

(** [if line.strip()]: the line holds a character that is not white
    space. *)
Definition non_blank (line : str) : bool := truthy (strip line).

(** [min(xs) if xs else 0]. *)
Definition min_or_zero (xs : list Z) : Z :=
  match xs with
  | [] => 0
  | x :: xs' => fold_left Z.min xs' x
  end.

(** Called with a pair [(start_line, end_line)] at every call site. *)
Definition _calculate_indent_level (file_lines : list str)
    (start_line end_line : Z) : Z :=
  let indentations :=
    map leading_spaces
      (List.filter non_blank (py_slice file_lines (start_line - 1) end_line)) in
  min_or_zero indentations.

Definition _apply_indent (code : str) (n : Z) : str :=
  let indent_spaces := spaces n in
  join [LF] (map (fun line => indent_spaces ++ line) (split_on LF code)).

(** [1 <= start_line <= end_line <= len(file_lines)]. *)
Definition in_bounds {A} (file_lines : list A) (start_line end_line : Z) : bool :=
  (1 <=? start_line) && (start_line <=? end_line)
  && (end_line <=? len file_lines).

(** [file_lines[i] = x] for [i >= 0]; Python raises [IndexError] out of
    range. *)
Definition set_item {A} (l : list A) (i : Z) (x : A) : result (list A) :=
  if (0 <=? i) && (i <? len l) then Ok (<[Z.to_nat i := x]> l)
  else Raise IndexError.

Definition resolve (self : t) (path_to_file : str) (relative_path : bool) : str :=
  if relative_path then os_path_join (repository_location self) path_to_file
  else path_to_file.

Definition get_code_segment (self : t) (path_to_file : str)
    (line_range : line_range) (relative_path : bool) : M World str :=
  let path_to_file := resolve self path_to_file relative_path in
  try_except
    (file_lines <- readlines path_to_file ;;
     let line_count := len file_lines in
     bounds <- lift (_normalize_line_range line_range line_count 0) ;;
     let '(start_line, end_line) := bounds in
     ret (concat (py_slice file_lines (start_line - 1) end_line)))%py
    is_FileNotFoundError
    (LOGGER_exception "extracting lines of code" ;;; ret [])%py.


(** The indentation step of [update_code_segment]: the replacement text as
    it is substituted. *)
Definition reindent (file_lines : list str) (start_line end_line : Z)
    (updated_code : str) : str :=
  let current_indent :=
    _calculate_indent_level file_lines start_line end_line in
  let updated_code_lines := split_on LF updated_code in
  let updated_code_indent :=
    _calculate_indent_level updated_code_lines 1 (len updated_code_lines) in
  if updated_code_indent <? current_indent
  then _apply_indent updated_code current_indent
  else updated_code.

(** The line buffer after the substitution, or the usage error. *)
Definition substitute (line_range : line_range) (file_lines : list str)
    (start_line end_line : Z) (updated_code : str) : result (list str) :=
  match line_range with
  | LInt _ =>
      if in_bounds file_lines start_line end_line
      then set_item file_lines (start_line - 1) (updated_code ++ [LF])
      else Raise InvalidRangeBounds
  | LTuple [_; _] =>
      if in_bounds file_lines start_line end_line
      then Ok (py_slice_assign file_lines (start_line - 1) end_line
                 [updated_code ++ [LF]])
      else Raise InvalidRangeBounds
  | _ => Raise InvalidRangeShape
  end.

Definition update_code_segment (self : t) (path_to_file : str)
    (line_range : line_range) (updated_code : str)
    (relative_path : bool) : M World unit :=
  let path_to_file := resolve self path_to_file relative_path in
  try_except
    (file_lines <- readlines path_to_file ;;
     let line_count := len file_lines in
     bounds <- lift (_normalize_line_range line_range line_count 0) ;;
     let '(start_line, end_line) := bounds in
     let updated_code := reindent file_lines start_line end_line updated_code in
     file_lines <-
        lift (substitute line_range file_lines start_line end_line updated_code) ;;
     writelines path_to_file file_lines)%py
    is_FileNotFoundError
    (LOGGER_exception "improving code range")%py.

(** The loop of [locate_sonar_key]: the first line that mentions the key
    decides; [line.split("=")[1]] raises [IndexError] when that line holds no
    ["="].  Without such a line the method falls through to [return ""]. *)
Fixpoint scan_project_key (file_lines : list str) : result str :=
  match file_lines with
  | [] => Ok []
  | line :: rest =>
      if str_in (py "sonar.projectKey") line then
        match split_on 61 line with
        | _ :: value :: _ => Ok (strip value)
        | _ => Raise IndexError
        end
      else scan_project_key rest
  end.

Definition locate_sonar_key (self : t) (target_dir : str) : M World str :=
  let sonar_properties_file :=
    os_path_join target_dir (py "sonar-project.properties") in
  try_except
    (file_lines <- readlines sonar_properties_file ;;
     lift (scan_project_key file_lines))%py
    is_FileNotFoundError
    (LOGGER_exception "finding sonar project key" ;;; ret [])%py.

End CodeFileManager.

(** ** The prompt/answer cache (src/tools/data_store.py) *)

Module FileBasedStore.

(** *** UTF-8 and base64, on byte values *)

(** [chr(c).encode("utf-8")]: a surrogate cannot be encoded. *)
Definition utf8_encode_char (c : N) : option (list N) :=
  (if c <? 128 then Some [c]
   else if c <? 2048 then Some [192 + c / 64; 128 + c mod 64]
   else if c <? 65536 then
     if (55296 <=? c) && (c <=? 57343) then None
     else Some [224 + c / 4096; 128 + (c / 64) mod 64; 128 + c mod 64]
   else if c <? 1114112 then
     Some [240 + c / 262144; 128 + (c / 4096) mod 64;
           128 + (c / 64) mod 64; 128 + c mod 64]
   else None)%N.

(** [text.encode("utf-8")]. *)
Fixpoint utf8_encode (s : str) : option (list N) :=
  match s with
  | [] => Some []
  | c :: s' =>
      match utf8_encode_char c, utf8_encode s' with
      | Some bs, Some bs' => Some (bs ++ bs')
      | _, _ => None
      end
  end.

(** A continuation byte [10xxxxxx]. *)
Definition is_cont (b : N) : bool := ((128 <=? b) && (b <? 192))%N.

(** [data.decode("utf-8")], strict: over-long forms, surrogates and values
    past U+10FFFF are refused. *)
Fixpoint utf8_decode (bs : list N) : option str :=
  match bs with
  | [] => Some []
  | b0 :: r0 =>
      if (b0 <? 128)%N then cons b0 <$> utf8_decode r0
      else if ((194 <=? b0) && (b0 <? 224))%N then
        match r0 with
        | b1 :: r1 =>
            if is_cont b1
            then cons ((b0 - 192) * 64 + (b1 - 128))%N <$> utf8_decode r1
            else None
        | _ => None
        end
      else if ((224 <=? b0) && (b0 <? 240))%N then
        match r0 with
        | b1 :: b2 :: r2 =>
            let c := ((b0 - 224) * 4096 + (b1 - 128) * 64 + (b2 - 128))%N in
            if is_cont b1 && is_cont b2 && (2048 <=? c)%N
               && negb ((55296 <=? c) && (c <=? 57343))%N
            then cons c <$> utf8_decode r2
            else None
        | _ => None
        end
      else if ((240 <=? b0) && (b0 <? 245))%N then
        match r0 with
        | b1 :: b2 :: b3 :: r3 =>
            let c := ((b0 - 240) * 262144 + (b1 - 128) * 4096
                      + (b2 - 128) * 64 + (b3 - 128))%N in
            if is_cont b1 && is_cont b2 && is_cont b3
               && (65536 <=? c)%N && (c <? 1114112)%N
            then cons c <$> utf8_decode r3
            else None
        | _ => None
        end
      else None
  end.

(** The base64 alphabet: [A-Z], [a-z], [0-9], [+], [/]. *)
Definition b64_char (v : N) : N :=
  (if v <? 26 then 65 + v
   else if v <? 52 then 97 + (v - 26)
   else if v <? 62 then 48 + (v - 52)
   else if v =? 62 then 43
   else 47)%N.

Definition b64_val (c : N) : option N :=
  (if (65 <=? c) && (c <=? 90) then Some (c - 65)
   else if (97 <=? c) && (c <=? 122) then Some (c - 97 + 26)
   else if (48 <=? c) && (c <=? 57) then Some (c - 48 + 52)
   else if c =? 43 then Some 62
   else if c =? 47 then Some 63
   else None)%N.

(** The padding character [=]. *)
Definition PAD : N := 61%N.

(** [base64.b64encode(data)]. *)
Fixpoint b64encode (bs : list N) : list N :=
  match bs with
  | [] => []
  | [a] => [b64_char (a / 4); b64_char (a mod 4 * 16); PAD; PAD]%N
  | [a; b] =>
      [b64_char (a / 4); b64_char (a mod 4 * 16 + b / 16);
       b64_char (b mod 16 * 4); PAD]%N
  | a :: b :: c :: rest =>
      [b64_char (a / 4); b64_char (a mod 4 * 16 + b / 16);
       b64_char (b mod 16 * 4 + c / 64); b64_char (c mod 64)]%N
      ++ b64encode rest
  end.

(** [base64.b64decode(data)] on canonical input: groups of four characters
    of the alphabet, padded in the last group only.  On other input CPython
    skips foreign characters or raises [binascii.Error]; which of the two is
    not modelled, the result is [None] here. *)
Fixpoint b64decode (cs : list N) : option (list N) :=
  match cs with
  | [] => Some []
  | c0 :: c1 :: c2 :: c3 :: rest =>
      match b64_val c0, b64_val c1 with
      | Some v0, Some v1 =>
          if (c2 =? PAD)%N then
            if (c3 =? PAD)%N && negb (truthy rest)
            then Some [v0 * 4 + v1 / 16]%N
            else None
          else
            match b64_val c2 with
            | Some v2 =>
                if (c3 =? PAD)%N then
                  if negb (truthy rest)
                  then Some [v0 * 4 + v1 / 16; v1 mod 16 * 16 + v2 / 4]%N
                  else None
                else
                  match b64_val c3 with
                  | Some v3 =>
                      app [v0 * 4 + v1 / 16; v1 mod 16 * 16 + v2 / 4;
                           v2 mod 4 * 64 + v3]%N <$> b64decode rest
                  | None => None
                  end
            | None => None
            end
      | _, _ => None
      end
  | _ => None
  end.

Definition or_raise {A} (e : exn) (o : option A) : result A :=
  match o with Some a => Ok a | None => Raise e end.

(** The value handed to the cache: a string, or a dict, which
    [_serialize_content] replaces by its [str()] rendering. *)
Inductive content : Type :=
  | Text (s : str)
  | Dict (rendering : str).

Definition str_of (text : content) : str :=
  match text with Text s => s | Dict r => r end.

Definition _serialize_content (text : content) : result str :=
  match utf8_encode (str_of text) with
  | None => Raise UnicodeEncodeError
  | Some bytes =>
      let encoded_bytes := b64encode bytes in
      or_raise UnicodeDecodeError (utf8_decode encoded_bytes)
  end.

(** *** The tabular files

    [DataFrame.to_csv(path, index=False)] and [pandas.read_csv(path)] for
    the one-column tables of this module.  A table is given by the fields of
    its column, as the CSV parser splits them off.

    With its default options the reader turns an empty field into a missing
    value (the float [nan]) and then types the column as a whole: when
    every field is a number it returns numbers, when every field is a truth
    value it returns booleans, and only a column with a field that is neither
    comes back as the strings that were written.  The model settles this for
    four kinds of field and marks every table with a field of another kind
    (a signed or very long number, a float, a missing-value marker such as
    [NA], text that needs quoting) as not modelled. *)

Inductive cell : Type :=
  | CStr (s : str)
  | CNaN
  | CInt (value : N)
  | CBool (value : bool).

Definition is_digit (c : N) : bool := ((48 <=? c) && (c <=? 57))%N.

(** A character of the base64 alphabet, or the padding character. *)
Definition is_b64_symbol (c : N) : bool :=
  match b64_val c with
  | Some _ => true
  | None => (c =? PAD)%N
  end.

(** The characters of base64 text with which no number, no truth value and
    no missing-value marker is spelt. *)
Definition is_text_mark (c : N) : bool :=
  existsb (N.eqb c) (py "CGHKMPQVWZcghkmpqvwz=").

(** Base64 text that holds such a character: the reader can take it for
    nothing but text. *)
Definition plain (field : str) : bool :=
  forallb is_b64_symbol field && existsb is_text_mark field.

(** Up to 18 digits: an integer that fits 64 bits. *)
Definition int_field (field : str) : bool :=
  truthy field && (length field <=? 18)%nat && forallb is_digit field.

Definition int_value (field : str) : N :=
  fold_left (fun a c => (10 * a + (c - 48))%N) field 0%N.

Definition lower (c : N) : N :=
  if ((65 <=? c) && (c <=? 90))%N then (c + 32)%N else c.

(** [true] and [false] in any mix of upper and lower case. *)
Definition truth_value (field : str) : option bool :=
  if bool_decide (map lower field = py "true") then Some true
  else if bool_decide (map lower field = py "false") then Some false
  else None.

Inductive field_kind : Type :=
  | KEmpty
  | KText
  | KInt (value : N)
  | KBool (value : bool)
  | KOther.

Definition classify (field : str) : field_kind :=
  if negb (truthy field) then KEmpty
  else if plain field then KText
  else if int_field field then KInt (int_value field)
  else match truth_value field with
       | Some b => KBool b
       | None => KOther
       end.

Definition is_text (field : str) : bool :=
  match classify field with KText => true | _ => false end.

Definition is_empty_or_text (field : str) : bool :=
  match classify field with KEmpty | KText => true | _ => false end.

Definition is_other (field : str) : bool :=
  match classify field with KOther => true | _ => false end.

Definition int_of (field : str) : option N :=
  match classify field with KInt v => Some v | _ => None end.

Definition bool_of (field : str) : option bool :=
  match classify field with KBool b => Some b | _ => None end.

(** A field of a column of strings. *)
Definition as_text (field : str) : cell :=
  match field with
  | [] => CNaN
  | _ :: _ => CStr field
  end.

(** A long table is read in chunks that are typed one by one; the model
    reads a table in one piece, which makes no difference below this
    number of rows, nor for a table of text and empty fields only. *)
Definition chunk_rows : N := 262144%N.

(** The column as [pandas.read_csv] returns it. *)
Definition read_csv (rows : list str) : result (list cell) :=
  if existsb is_other rows then Raise NotModelled
  else if existsb is_text rows then
    if forallb is_empty_or_text rows || (N.of_nat (length rows) <=? chunk_rows)%N
    then Ok (map as_text rows)
    else Raise NotModelled
  else if forallb (fun field => negb (truthy field)) rows then Ok (map as_text rows)
  else match mapM int_of rows, mapM bool_of rows with
       | Some values, _ => Ok (map CInt values)
       | None, Some values => Ok (map CBool values)
       | None, None => Raise NotModelled
       end.

(** [str(n)]. *)
Fixpoint decimal_digits (fuel : nat) (n : N) (acc : str) : str :=
  match fuel with
  | O => acc
  | S fuel' =>
      let acc' := (48 + n mod 10)%N :: acc in
      if (n / 10 =? 0)%N then acc' else decimal_digits fuel' (n / 10) acc'
  end.

Definition decimal (n : N) : str := decimal_digits 20 n [].

(** The field [to_csv] writes for a value. *)
Definition to_csv_cell (c : cell) : str :=
  match c with
  | CStr s => s
  | CNaN => []
  | CInt n => decimal n
  | CBool true => py "True"
  | CBool false => py "False"
  end.

(** [value == query] for a table cell and a string. *)
Definition cell_is (query : str) (c : cell) : bool :=
  match c with
  | CStr s => bool_decide (s = query)
  | _ => false
  end.

(** The attribute access [value.encode] of [_deserialize_content]: only a
    string has it. *)
Definition cell_encode (c : cell) : result (list N) :=
  match c with
  | CStr s => or_raise UnicodeEncodeError (utf8_encode s)
  | _ => Raise (AttributeError "encode")
  end.

Definition _deserialize_content (encoded_string : cell) : result str :=
  match cell_encode encoded_string with
  | Raise e => Raise e
  | Ok bytes =>
      match b64decode bytes with
      | None => Raise NotModelled
      | Some decoded_bytes =>
          or_raise UnicodeDecodeError (utf8_decode decoded_bytes)
      end
  end.

(** The storage directory: the index file (the fields of its [prompt]
    column) when it exists, the payload files [<n>.csv] by their number
    (the fields of their [answer] column), and the log. *)
Record Disk : Type := mkDisk {
  index_file : option (list str);
  payload_files : gmap nat (list str);
  log : list string;
}.

(** [FileBasedStore(base_dir)]: the directory and an empty index are
    created when missing. *)
Definition init (d : Disk) : Disk :=
  match index_file d with
  | Some _ => d
  | None => mkDisk (Some []) (payload_files d) (log d)
  end.

Definition index_exists : M Disk bool :=
  fun d => (Ok (bool_decide (is_Some (index_file d))), d).

(** [pd.read_csv(self.index_file)]. *)
Definition read_index : M Disk (list cell) :=
  fun d =>
    match index_file d with
    | Some rows => (read_csv rows, d)
    | None => (Raise FileNotFoundError, d)
    end.

(** [data_frame.to_csv(self.index_file, index=False)]. *)
Definition write_index (data_frame : list cell) : M Disk unit :=
  fun d =>
    (Ok tt, mkDisk (Some (map to_csv_cell data_frame)) (payload_files d) (log d)).

(** [pd.read_csv(f"{self.storage_dir}/{entry_id}.csv")]. *)
Definition read_payload (entry_id : nat) : M Disk (list cell) :=
  fun d =>
    match payload_files d !! entry_id with
    | Some rows => (read_csv rows, d)
    | None => (Raise FileNotFoundError, d)
    end.

(** The same call where its result is dropped: whatever the table holds,
    only a missing file shows. *)
Definition read_payload_unused (entry_id : nat) : M Disk unit :=
  fun d =>
    match payload_files d !! entry_id with
    | Some _ => (Ok tt, d)
    | None => (Raise FileNotFoundError, d)
    end.

(** [result_df.to_csv(f"{self.storage_dir}/{entry_id}.csv", index=False)]. *)
Definition write_payload (entry_id : nat) (result_df : list cell) : M Disk unit :=
  fun d =>
    (Ok tt,
     mkDisk (index_file d)
       (<[entry_id := map to_csv_cell result_df]> (payload_files d)) (log d)).

(** [if os.path.exists(result_file): os.remove(result_file)]. *)
Definition remove_payload_if_exists (entry_id : nat) : M Disk unit :=
  fun d => (Ok tt, mkDisk (index_file d) (delete entry_id (payload_files d)) (log d)).

Definition log_info (msg : string) : M Disk unit :=
  fun d => (Ok tt, mkDisk (index_file d) (payload_files d) (log d ++ [msg])).

(** [data_frame.index[data_frame["prompt"] == query].tolist()[0]] under
    [if query in data_frame["prompt"].values]: the first row that holds the
    query, when there is one. *)
Fixpoint find_entry (query : str) (data_frame : list cell) : option nat :=
  match data_frame with
  | [] => None
  | c :: rest =>
      if cell_is query c then Some 0%nat
      else S <$> find_entry query rest
  end.

(** [data_frame.drop(entry_id)]. *)
Definition drop_row {A} (entry_id : nat) (data_frame : list A) : list A :=
  take entry_id data_frame ++ drop (S entry_id) data_frame.

(** [result_df["answer"].values[0]]. *)
Definition first_value (result_df : list cell) : result cell :=
  match result_df with
  | c :: _ => Ok c
  | [] => Raise IndexError
  end.

Local Open Scope py_scope.

Definition store (query result : content) : M Disk bool :=
  query <- lift (_serialize_content query) ;;
  result <- lift (_serialize_content result) ;;
  let finish (data_frame : list cell) : M Disk bool :=
    write_index data_frame ;;;
    write_payload (length data_frame - 1) [CStr result] ;;;
    ret true in
  present <- index_exists ;;
  if present : bool then
    data_frame <- read_index ;;
    match find_entry query data_frame with
    | Some entry_id => read_payload_unused entry_id ;;; ret false
    | None => finish (data_frame ++ [CStr query])
    end
  else finish [CStr query].

Definition remove (query : content) : M Disk unit :=
  query <- lift (_serialize_content query) ;;
  present <- index_exists ;;
  if present : bool then
    data_frame <- read_index ;;
    match find_entry query data_frame with
    | Some entry_id =>
        write_index (drop_row entry_id data_frame) ;;;
        remove_payload_if_exists entry_id
    | None => ret tt
    end
  else ret tt.

Definition contains (query : content) : M Disk bool :=
  query <- lift (_serialize_content query) ;;
  present <- index_exists ;;
  hit <- (if present : bool then
            data_frame <- read_index ;;
            ret (bool_decide (is_Some (find_entry query data_frame)))
          else ret false) ;;
  if hit : bool then log_info "Cache hit!" ;;; ret true
  else log_info "Cache miss!" ;;; ret false.

(** [None] is the result when the query is not in the index. *)
Definition retrieve (query : content) : M Disk (option str) :=
  query <- lift (_serialize_content query) ;;
  present <- index_exists ;;
  if present : bool then
    data_frame <- read_index ;;
    match find_entry query data_frame with
    | Some entry_id =>
        result_df <- read_payload entry_id ;;
        value <- lift (first_value result_df) ;;
        answer <- lift (_deserialize_content value) ;;
        ret (Some answer)
    | None => ret None
    end
  else ret None.

End FileBasedStore.

(** The cache that stores nothing: every method ignores its arguments. *)
Module NullDataStore.

Definition contains {S} (query : FileBasedStore.content) : M S bool :=
  ret false.

Definition store {S} (query result : FileBasedStore.content) : M S bool :=
  ret false.

Definition remove {S} (query : FileBasedStore.content) : M S unit :=
  ret tt.

Definition retrieve {S} (query : FileBasedStore.content) : M S (option str) :=
  ret None.

End NullDataStore.

(** ** The branch life cycle (src/tools/git_manager.py) *)

Module GitManager.

(** A commit, as far as the manager inspects it. *)
Record Commit : Type := mkCommit {
  author_name : str;
  hexsha : str;
}.

(** A git command the manager ran on its clone. *)
Inductive git_cmd : Type :=
  | ConfigSet (section key value : str)
  | Checkout (branch : str)
  | CheckoutNew (branch : str)
  | AddAll
  | CommitMsg (message : str)
  | Push
  | PushSetUpstream (remote branch : str)
  | PushDelete (remote branch : str).

(** The working clone (GitPython's [Repo]) with what the manager reads from
    it: the head commit; the branches [git branch -a] lists, a local branch
    under its name and a branch of the remote under
    [remotes/origin/<name>], each with its commits, newest first; the
    symbolic reference of the remote's HEAD; the active branch; the upstream
    configured for the local branches; and the commands the clone has
    carried out.  The clone is on a branch, has no tags and no second
    remote, and lists under [remotes/origin/] the branches the remote has;
    no change in its work tree stands in the way of a checkout. *)
Record Repo : Type := mkRepo {
  head_commit : Commit;
  branches : list (str * list Commit);
  origin_head : option str;
  active_branch : str;
  tracked : gmap str str;
  journal : list git_cmd;
}.

(** The upstream of the active branch ([@{u}]). *)
Definition upstream (r : Repo) : option str := tracked r !! active_branch r.

Inductive log_record : Type :=
  | LogError (msg : string).

(** A pull request sent to the hosting API. *)
Record Request : Type := mkRequest {
  url : str;
  token : str;
  title : str;
  body : str;
  head : str;
  base : str;
}.

(** [self._repo_details]. *)
Record RepoDetails : Type := mkDetails {
  repository_url : str;
  account_name : str;
  security_token : str;
  project_name : option str;
  account_owner : option str;
  domain_url : option str;
  clone_url : option str;
}.

(** The manager's fields, followed by its surroundings: what cloning the
    remote yields, the status code the hosting API answers with, the
    requests sent, and the log at level ERROR. *)
Record State : Type := mkState {
  _local_workspace : str;
  _repo_details : RepoDetails;
  _source_tree : option Repo;
  _feature_branch_name : str;
  remote : option Repo;
  api_status : Z;
  sent : list Request;
  log : list log_record;
}.

(** [GitManager(local_workspace, repository_url, account_name,
    security_token)]. *)
Definition new (local_workspace repository_url account_name
    security_token : str) (remote : option Repo) (api_status : Z) : State :=
  mkState local_workspace
    (mkDetails repository_url account_name security_token None None None None)
    None [] remote api_status [] [].

Definition set_details (f : RepoDetails -> RepoDetails) : M State unit :=
  fun s =>
    (Ok tt, mkState (_local_workspace s) (f (_repo_details s)) (_source_tree s)
              (_feature_branch_name s) (remote s) (api_status s) (sent s) (log s)).

Definition set_source_tree (r : option Repo) : M State unit :=
  fun s =>
    (Ok tt, mkState (_local_workspace s) (_repo_details s) r
              (_feature_branch_name s) (remote s) (api_status s) (sent s) (log s)).

Definition set_feature_branch_name (name : str) : M State unit :=
  fun s =>
    (Ok tt, mkState (_local_workspace s) (_repo_details s) (_source_tree s)
              name (remote s) (api_status s) (sent s) (log s)).

Definition LOGGER_error (msg : string) : M State unit :=
  fun s =>
    (Ok tt, mkState (_local_workspace s) (_repo_details s) (_source_tree s)
              (_feature_branch_name s) (remote s) (api_status s) (sent s)
              (log s ++ [LogError msg])).

Definition send (r : Request) : M State Z :=
  fun s =>
    (Ok (api_status s),
     mkState (_local_workspace s) (_repo_details s) (_source_tree s)
       (_feature_branch_name s) (remote s) (api_status s) (sent s ++ [r]) (log s)).

Definition get {A} (f : State -> A) : M State A := fun s => (Ok (f s), s).

(** The guard every guarded method starts with:
    [if self._source_tree is None: raise ValueError(...)]. *)
Definition guard_initialized : M State Repo :=
  fun s =>
    match _source_tree s with
    | None => (Raise NotInitialized, s)
    | Some r => (Ok r, s)
    end.

(** An attribute access on [self._source_tree] without the guard: on [None]
    Python raises [AttributeError]. *)
Definition source_tree_attr (attr : string) : M State Repo :=
  fun s =>
    match _source_tree s with
    | None => (Raise (AttributeError attr), s)
    | Some r => (Ok r, s)
    end.

(** A string the operating system passes to a process as it is: no NUL
    character and no code point outside the Unicode scalar values. *)
Definition process_argument (b : str) : bool :=
  forallb (fun c => (0 <? c)%N && ((c <? 55296)%N || (57343 <? c)%N && (c <? 1114112)%N)) b.

(** A character no reference name may hold: a control character, a space,
    or one of [~ ^ : ? * [ \]. *)
Definition forbidden_char (c : N) : bool :=
  (c <? 32)%N || (c =? 127)%N || existsb (N.eqb c) (py " ~^:?*[\").

(** The rules of [git check-ref-format] for the name of a branch. *)
Definition valid_branch_name (b : str) : bool :=
  forallb (fun c => truthy c && negb (startswith (py ".") c)
                    && negb (endswith (py ".lock") c))
    (split_on SLASH b)
  && negb (existsb forbidden_char b)
  && negb (str_in (py "..") b)
  && negb (str_in (py "@{") b)
  && negb (endswith (py ".") b)
  && negb (startswith (py "-") b)
  && negb (bool_decide (b = py "@"))
  && negb (bool_decide (b = py "HEAD")).

(** [git branch -a] lists the name. *)
Definition is_listed (name : str) (r : Repo) : bool :=
  existsb (fun e => bool_decide (e.1 = name)) (branches r).

(** The name is that of a local branch. *)
Definition is_local (name : str) (r : Repo) : bool :=
  is_listed name r && negb (startswith (py "remotes/") name).

(** A local branch stands in the way of a branch [b]: one is a directory
    of the other in the name space of references. *)
Definition ref_conflict (b : str) (r : Repo) : bool :=
  existsb (fun e => negb (startswith (py "remotes/") e.1)
                   && (startswith (e.1 ++ py "/") b || startswith (b ++ py "/") e.1))
    (branches r).

(** The commits of a listed branch; a new branch starts at the head
    commit. *)
Definition commits_of (name : str) (r : Repo) : list Commit :=
  match List.find (fun e => bool_decide (e.1 = name)) (branches r) with
  | Some e => e.2
  | None => [head_commit r]
  end.

(** The effect of a git command on the clone, or the failure of the
    command (git exits with an error and GitPython raises
    [GitCommandError]).
    - [git checkout b] switches to the local branch [b].  A name that is no
      local branch may still be a branch of the remote, a revision or a
      path: what git does then is not modelled.
    - [git checkout -b b] makes the branch [b] at the head commit and
      switches to it; it fails when [b] is no valid name, when the branch
      is listed already, or when a local branch stands in its way.  A name
      that cannot be passed to the process, or one in the name space of the
      remote branches, is not modelled.
    - [git commit -m message] with a message that cannot be passed to the
      process is not modelled.
    - [git push --set-upstream o b] makes [o/b] the upstream of [b]; the
      remote gets the branch if it has none of that name.
    - [git push o --delete b] removes the branch [b] of the remote; it fails
      when the remote has no branch [b].
    - Whether the remote accepts a push, and whether there is anything to
      commit, is not decided by the state of the clone: these commands are
      taken to succeed.
    The journal keeps the commands that succeeded. *)
Definition apply_cmd (c : git_cmd) (r : Repo) : result Repo :=
  let done head branches active tracked :=
    Ok (mkRepo head branches (origin_head r) active tracked (journal r ++ [c])) in
  let same := done (head_commit r) (branches r) (active_branch r) (tracked r) in
  match c with
  | Checkout b =>
      if is_local b r
      then done match commits_of b r with
                | commit :: _ => commit
                | [] => head_commit r
                end (branches r) b (tracked r)
      else Raise NotModelled
  | CheckoutNew b =>
      if negb (process_argument b) || startswith (py "remotes/") b
      then Raise NotModelled
      else if valid_branch_name b && negb (is_listed b r) && negb (ref_conflict b r)
      then done (head_commit r)
             (branches r ++ [(b, commits_of (active_branch r) r)]) b (tracked r)
      else Raise GitCommandError
  | CommitMsg message =>
      if process_argument message then same else Raise NotModelled
  | PushSetUpstream o b =>
      let remote_b := py "remotes/" ++ o ++ py "/" ++ b in
      done (head_commit r)
        (if is_listed remote_b r then branches r
         else branches r ++ [(remote_b, commits_of b r)])
        (active_branch r) (<[b := o ++ py "/" ++ b]> (tracked r))
  | PushDelete o b =>
      let remote_b := py "remotes/" ++ o ++ py "/" ++ b in
      if is_listed remote_b r
      then done (head_commit r)
             (List.filter (fun e => negb (bool_decide (e.1 = remote_b))) (branches r))
             (active_branch r) (tracked r)
      else Raise GitCommandError
  | ConfigSet _ _ _ | AddAll | Push => same
  end.

(** [self._source_tree.git.<command>(...)] once the tree is known to be
    there: a command that fails raises [GitCommandError]. *)
Definition git (c : git_cmd) : M State unit :=
  fun s =>
    match _source_tree s with
    | Some r =>
        match apply_cmd c r with
        | Ok r' => set_source_tree (Some r') s
        | Raise e => (Raise e, s)
        end
    | None => (Raise (AttributeError "git"), s)
    end.

(** The longest prefix without ['/'] and what follows it. *)
Fixpoint span_no_slash (s : str) : str * str :=
  match s with
  | [] => ([], [])
  | c :: s' =>
      if (c =? 47)%N then ([], s)
      else let '(a, b) := span_no_slash s' in (c :: a, b)
  end.

(** [re.match(r"https://([^/]+)/([^/]+)/([^/]+)", url)]: the three
    groups. *)
Definition match_repository_url (u : str) : option (str * str * str) :=
  if startswith (py "https://") u then
    let '(domain, r1) := span_no_slash (drop 8 u) in
    match domain, r1 with
    | _ :: _, _ :: r1' =>
        let '(owner, r2) := span_no_slash r1' in
        match owner, r2 with
        | _ :: _, _ :: r2' =>
            let '(repo, _) := span_no_slash r2' in
            match repo with
            | _ :: _ => Some (domain, owner, repo)
            | [] => None
            end
        | _, _ => None
        end
    | _, _ => None
    end
  else None.

(** [s.replace(old, "")] for a non-empty [old]; [skip] characters of a
    match are still to be dropped. *)
Fixpoint remove_all_from (old : str) (skip : nat) (s : str) : str :=
  match s with
  | [] => []
  | c :: s' =>
      match skip with
      | S k => remove_all_from old k s'
      | O =>
          if startswith old s then remove_all_from old (length old - 1) s'
          else c :: remove_all_from old 0 s'
      end
  end.

Local Open Scope py_scope.

Definition _extract_repository_info : M State unit :=
  u <- get (fun s => repository_url (_repo_details s)) ;;
  match match_repository_url u with
  | None => LOGGER_error "Invalid repository URL." ;;; raise InvalidRepositoryURL
  | Some (domain, owner, repo) =>
      set_details (fun d =>
        mkDetails (repository_url d) (account_name d) (security_token d)
          (Some repo) (Some owner) (Some domain)
          (Some (py "https://" ++ account_name d ++ py ":" ++ security_token d
                 ++ py "@" ++ domain ++ py "/" ++ owner ++ py "/" ++ repo
                 ++ py ".git")))
  end.

(** [Repo.clone_from(clone_url, path)]. *)
Definition clone_from : M State Repo :=
  fun s =>
    match remote s with
    | Some r => (Ok r, s)
    | None => (Raise GitCommandError, s)
    end.

Definition _current_revision_id : M State str :=
  r <- guard_initialized ;;
  ret (take 7 (hexsha (head_commit r))).

Definition _configure_author_info (name email : str) : M State unit :=
  guard_initialized ;;;
  git (ConfigSet (py "user") (py "name") name) ;;;
  git (ConfigSet (py "user") (py "email") email).

(** [branch_id in branch] over the lines of [git branch -a]: the test is
    made on the names, a revision id being made of hex digits, which the
    marks in front of a name are not. *)
Definition _check_branch_presence (branch_id : str) : M State bool :=
  r <- guard_initialized ;;
  ret (existsb (fun e => str_in branch_id e.1) (branches r)).

(** A line of [git branch], stripped: the branch that is checked out is
    marked with an asterisk, which [strip()] leaves in front of the name (a
    branch name holds no white space). *)
Definition branch_line (r : Repo) (name : str) : str :=
  if bool_decide (name = active_branch r) then py "* " ++ name else name.

(** [git branch -a --list "*tech-debt-bot-*"], line by line. *)
Definition _find_automation_branches : M State (list str) :=
  r <- guard_initialized ;;
  ret (map (branch_line r)
         (List.filter (str_in (py "tech-debt-bot-")) (map fst (branches r)))).

(** [list(self._source_tree.iter_commits(branch))]. *)
Definition _retrieve_changesets (branch : str) : M State (list Commit) :=
  r <- guard_initialized ;;
  match List.find (fun e => bool_decide (e.1 = branch)) (branches r) with
  | Some e => ret e.2
  | None => raise GitCommandError
  end.

Definition _remove_branch (branch : str) : M State unit :=
  guard_initialized ;;;
  let branch :=
    if startswith (py "remotes/origin/") branch
    then remove_all_from (py "remotes/origin/") 0 branch
    else branch in
  git (PushDelete (py "origin") branch).

Definition _should_remove_branch (branch author_name current_branch_id : str)
    : M State bool :=
  if str_in current_branch_id branch then ret false
  else
    commits <- _retrieve_changesets branch ;;
    match commits with
    | [] => ret false
    | last_commit :: _ =>
        if bool_decide (GitManager.author_name last_commit = author_name)
        then ret true
        else ret false
    end.

(** [for branch in branches: ...]. *)
Fixpoint for_each {A} (l : list A) (body : A -> M State unit) : M State unit :=
  match l with
  | [] => ret tt
  | x :: l' => body x ;;; for_each l' body
  end.

Definition _cleanup_obsolete_branches (author_name current_branch_id : str)
    : M State unit :=
  branches <- _find_automation_branches ;;
  for_each branches (fun branch =>
    doomed <- _should_remove_branch branch author_name current_branch_id ;;
    if doomed : bool then _remove_branch branch else ret tt).

(** [git symbolic-ref refs/remotes/origin/HEAD], then the last component;
    [except Exception] logs whatever was raised and raises it again. *)
Definition _determine_main_branch : M State str :=
  fun s =>
    match (r <- source_tree_attr "git" ;;
           match origin_head r with
           | Some default_ref => ret (List.last (split_on 47 default_ref) [])
           | None => raise GitCommandError
           end) s with
    | (Raise e, s') =>
        (LOGGER_error "Failed to determine the default branch" ;;; raise e) s'
    | r => r
    end.

(** The identity configured for the commits of the clone. *)
Definition bot_name : str := py "TechDebotBot".
Definition bot_email : str := py "tech-debt-bot@reply.de".

Definition initialize : M State bool :=
  _extract_repository_info ;;;
  tree <- clone_from ;;
  set_source_tree (Some tree) ;;;
  _configure_author_info bot_name bot_email ;;;
  latest_commit <- _current_revision_id ;;
  _cleanup_obsolete_branches (py "Timo") latest_commit ;;;
  _check_branch_presence latest_commit.

Definition create_feature_branch (identifier : str) : M State unit :=
  guard_initialized ;;;
  latest_commit <- _current_revision_id ;;
  let name := py "tech-debt-bot-" ++ identifier ++ py "-" ++ latest_commit in
  set_feature_branch_name name ;;;
  main_branch <- _determine_main_branch ;;
  git (Checkout main_branch) ;;;
  git (CheckoutNew name).

(** [f"{x}"] for a field that holds a string or [None]. *)
Definition format (x : option str) : str := default (py "None") x.

Definition stage_and_record (message : str) : M State unit :=
  guard_initialized ;;;
  git AddAll ;;;
  git (CommitMsg message).

Definition create_merge_request (title body base : str) : M State unit :=
  guard_initialized ;;;
  d <- get _repo_details ;;
  feature <- get _feature_branch_name ;;
  let url := py "https://api." ++ format (domain_url d) ++ py "/repos/"
             ++ format (account_owner d) ++ py "/"
             ++ format (project_name d) ++ py "/pulls" in
  status_code <- send (mkRequest url (security_token d) title body feature base) ;;
  if status_code =? 201 then ret tt
  else
    LOGGER_error "Failed to create pull request: %d" ;;;
    LOGGER_error "response.text" ;;;
    LOGGER_error "URL:" ;;;
    LOGGER_error "HEADERS:" ;;;
    LOGGER_error "DATA:".

Definition publish_and_verify_remote : M State unit :=
  r <- source_tree_attr "active_branch" ;;
  let current_branch := active_branch r in
  let tracking_branch := upstream r in
  match tracking_branch with
  | None => git (PushSetUpstream (py "origin") current_branch)
  | Some _ => git Push
  end.

End GitManager.

(** ** The surrounding-lines parser (src/tools/content_parser.py) *)

Module LinearTextParser.

Record t : Type := mkParser {
  _text : str;
  _section_range : Z * Z;
  _margin : Z;
}.

(** The line boundaries of [str.splitlines]. *)
Definition is_linebreak (c : N) : bool :=
  ((10 <=? c) && (c <=? 13) || (28 <=? c) && (c <=? 30)
   || (c =? 133) || (c =? 8232) || (c =? 8233))%N.

(** [text.splitlines()]: the lines without their boundaries; ["\r\n"] is one
    boundary, and a boundary at the very end opens no further line. *)
Fixpoint splitlines (s : str) : list str :=
  match s with
  | [] => []
  | c :: s' =>
      if (c =? CR)%N then
        match s' with
        | d :: s'' => if (d =? LF)%N then [] :: splitlines s''
                      else [] :: splitlines s'
        | [] => [[]]
        end
      else if is_linebreak c then [] :: splitlines s'
      else match splitlines s' with
           | l :: ls => (c :: l) :: ls
           | [] => [[c]]
           end
  end.

Definition _normalize_limits (self : t) (start_idx end_idx : Z) : Z * Z :=
  let start_idx := if start_idx <? 0 then 0 else start_idx in
  let text_size := len (splitlines (_text self)) in
  let end_idx := if end_idx >? text_size then text_size else end_idx in
  (start_idx, end_idx).

Definition parse_surrounding_content (self : t) : str :=
  let '(start_idx, end_idx) := _section_range self in
  let start_idx := start_idx - (_margin self + 1) in
  let end_idx := end_idx + _margin self in
  let '(start_idx, end_idx) := _normalize_limits self start_idx end_idx in
  let text_lines := splitlines (_text self) in
  let selected_lines := py_slice text_lines start_idx end_idx in
  join [LF] selected_lines.

End LinearTextParser.

(** ** The agent (src/agents/sonar_agent.py) *)

Module SonarAgent.

(** [len(response["payload"].split("\n"))] of [complete_task]. *)
Definition inserted_lines (payload : str) : Z := len (split_on LF payload).

End SonarAgent.

(** ** Vocabulary of the properties and sample data *)

(** Run a computation for its state, or for its outcome. *)
Definition exec {S A} (m : M S A) (s : S) : S := snd (m s).
Definition outcome {S A} (m : M S A) (s : S) : result A := fst (m s).


(** The number of spaces a line starts with. *)
Fixpoint indent_width (l : str) : Z :=
  match l with
  | c :: l' => if (c =? SPACE)%N then 1 + indent_width l' else 0
  | [] => 0
  end.


(** The text can be written: [text.encode("utf-8")] succeeds. *)
Definition encodable (text : str) : Prop :=
  is_Some (FileBasedStore.utf8_encode text).


(** The lines [first .. last] of a line buffer, counted from 1; none when
    [last] is before [first]. *)
Definition lines_from_to {A} (lines : list A) (first last : Z) : list A :=
  take (Z.to_nat (last - first + 1)) (drop (Z.to_nat (first - 1)) lines).

(** The text of the replacement scenario of the specification: ten lines,
    lines 3 to 5 indented by four spaces. *)
Definition foo_py : str :=
  py "def f():
  a = 0
    b = 1
    c = 2
    d = 3
  e = 4
g = 5
h = 6
i = 7
j = 8
".

Definition sample_manager : CodeFileManager.t := CodeFileManager.mkManager (py "repo").
Definition sample_world : CodeFileManager.World :=
  CodeFileManager.mkWorld {[ py "repo/foo.py" := foo_py ]} [].
Definition foo_py_after : str :=
  py "def f():
  a = 0
    x = 1
    y = 2
  e = 4
g = 5
h = 6
i = 7
j = 8
".

Definition ascii_only (s : str) : Prop := Forall (fun c => (c < 128)%N) s.

(** A fresh cache directory. *)
Definition empty_store : FileBasedStore.Disk :=
  FileBasedStore.init (FileBasedStore.mkDisk None ∅ []).

Definition q1 : FileBasedStore.content := FileBasedStore.Text (py "q1").
Definition q2 : FileBasedStore.content := FileBasedStore.Text (py "q2").
Definition q3 : FileBasedStore.content := FileBasedStore.Text (py "q3").
Definition a1 : FileBasedStore.content := FileBasedStore.Text (py "a1").
Definition a2 : FileBasedStore.content := FileBasedStore.Text (py "a2").
Definition a3 : FileBasedStore.content := FileBasedStore.Text (py "a3").

Definition empty_text : FileBasedStore.content := FileBasedStore.Text [].

(** A query whose key spells a truth value ([TRUE]) and an answer whose key
    spells a number ([0400]). *)
Definition truth_query : FileBasedStore.content := FileBasedStore.Text [77; 21; 4]%N.
Definition number_answer : FileBasedStore.content := FileBasedStore.Text [1229; 52]%N.

(** An index that names one query, without the payload file of its row. *)
Definition orphan_index : FileBasedStore.Disk :=
  FileBasedStore.mkDisk (Some [py "cTE="]) ∅ [].

(** The reader hands the field back as the string that was written,
    whatever table it stands in: it is base64 text that holds a character
    of text only. *)
Definition read_as_text (field : str) : Prop := FileBasedStore.plain field = true.

(** A table of text: every field is empty or read back as text. *)
Definition text_table (rows : list str) : Prop :=
  Forall (fun field => field = [] \/ read_as_text field) rows.

(** The table a cache directory holds, as the reader returns it (no row
    when there is no index file, or when its table is not modelled). *)
Definition index_of (d : FileBasedStore.Disk) : list FileBasedStore.cell :=
  match FileBasedStore.index_file d with
  | Some rows =>
      match FileBasedStore.read_csv rows with
      | Ok cells => cells
      | Raise _ => []
      end
  | None => []
  end.

(** The index file is missing, or holds a table that is modelled. *)
Definition index_modelled (d : FileBasedStore.Disk) : Prop :=
  match FileBasedStore.index_file d with
  | Some rows => exists cells, FileBasedStore.read_csv rows = Ok cells
  | None => True
  end.

(** The branches the manager deleted on the remote. *)
Definition deleted (s : GitManager.State) : list str :=
  match GitManager._source_tree s with
  | Some r =>
      flat_map (fun c => match c with
                         | GitManager.PushDelete _ b => [b]
                         | _ => []
                         end) (GitManager.journal r)
  | None => []
  end.

(** The branches the clone lists. *)
Definition listed (s : GitManager.State) : list str :=
  match GitManager._source_tree s with
  | Some r => map fst (GitManager.branches r)
  | None => []
  end.

(** A remote at revision [0a1b2c3] with three automation branches: one
    left by the bot for an older revision, one for an older revision on
    which a person committed last, and the one of the current revision. *)
Definition head_c : GitManager.Commit :=
  GitManager.mkCommit (py "Alice") (py "0a1b2c3d4e5f60718293a4b5c6d7e8f901234567").
Definition bot_c : GitManager.Commit :=
  GitManager.mkCommit GitManager.bot_name (py "1111111aaaaaaaaaaaaaaaaaaaaaaaaaaaaaaaaa").
Definition timo_c : GitManager.Commit :=
  GitManager.mkCommit (py "Timo") (py "2222222bbbbbbbbbbbbbbbbbbbbbbbbbbbbbbbbb").
Definition bot_now_c : GitManager.Commit :=
  GitManager.mkCommit GitManager.bot_name (py "3333333ccccccccccccccccccccccccccccccccc").

Definition stale_bot_branch : str := py "remotes/origin/tech-debt-bot-T1-1111111".
Definition stale_human_branch : str := py "remotes/origin/tech-debt-bot-T2-2222222".
Definition current_bot_branch : str := py "remotes/origin/tech-debt-bot-T3-0a1b2c3".

Definition sample_remote : GitManager.Repo :=
  GitManager.mkRepo head_c
    [(py "main", [head_c]);
     (py "remotes/origin/main", [head_c]);
     (stale_bot_branch, [bot_c; head_c]);
     (stale_human_branch, [timo_c; bot_c; head_c]);
     (current_bot_branch, [bot_now_c; head_c])]
    (Some (py "refs/remotes/origin/main")) (py "main")
    {[ py "main" := py "origin/main" ]} [].

Definition fresh_manager : GitManager.State :=
  GitManager.new (py "/tmp/work") (py "https://github.com/acme/widgets")
    (py "bot") (py "secret") (Some sample_remote) 201.

(** The range is an [int] or a pair of ints. *)
Definition well_shaped (lr : CodeFileManager.line_range) : bool :=
  match lr with
  | CodeFileManager.LInt _ => true
  | CodeFileManager.LTuple [_; _] => true
  | _ => false
  end.

(** A line with its terminator: the newline is its last character and its
    only one. *)
Definition terminated (l : str) : Prop :=
  exists body, l = body ++ [LF] /\ ~ In LF body.

(** A line buffer as [readlines] returns it: every line is terminated,
    except that the last one may be a non-empty line without newline. *)
Fixpoint wf_lines (ls : list str) : Prop :=
  match ls with
  | [] => True
  | l :: ls' =>
      match ls' with
      | [] => terminated l \/ (l <> [] /\ ~ In LF l)
      | _ :: _ => terminated l /\ wf_lines ls'
      end
  end.

(** The key under which a content is filed: its encoded form (the empty
    string when it cannot be encoded). *)
Definition key (c : FileBasedStore.content) : str :=
  match FileBasedStore._serialize_content c with
  | Ok k => k
  | Raise _ => []
  end.

(** The content can be encoded and the reader hands its key back as
    text. *)
Definition storable (c : FileBasedStore.content) : Prop :=
  FileBasedStore._serialize_content c = Ok (key c) /\ read_as_text (key c).

(** The cache directory holds exactly [entries], in the order they were
    stored: row [i] of the index is the key of the query of entry [i], the
    payload file [i] holds the key of its answer, and no query occurs
    twice. *)
Definition consistent (d : FileBasedStore.Disk)
    (entries : list (FileBasedStore.content * FileBasedStore.content)) : Prop :=
  Forall (fun e => storable e.1 /\ storable e.2) entries
  /\ FileBasedStore.index_file d = Some (map (fun e => key e.1) entries)
  /\ (forall i e, entries !! i = Some e ->
       FileBasedStore.payload_files d !! i = Some [key e.2])
  /\ NoDup (map (fun e => key e.1) entries).

(** The answer filed for a query, if any. *)
Definition stored_answer
    (entries : list (FileBasedStore.content * FileBasedStore.content))
    (q : FileBasedStore.content) : option str :=
  (fun e => FileBasedStore.str_of e.2)
    <$> List.find (fun e => bool_decide (FileBasedStore.str_of e.1
                                         = FileBasedStore.str_of q)) entries.

(** A code point that UTF-8 cannot encode: a surrogate, or a value past
    U+10FFFF. *)
Definition unencodable (c : N) : Prop :=
  (55296 <= c <= 57343 \/ 1114112 <= c)%N.

(** A character of the base64 alphabet, or the padding character. *)
Definition b64_symbol (c : N) : Prop :=
  is_Some (FileBasedStore.b64_val c) \/ c = FileBasedStore.PAD.

(** The manager has a working clone. *)
Definition initialized (s : GitManager.State) : Prop :=
  is_Some (GitManager._source_tree s).

(** The manager with another state of its clone. *)
Definition with_tree (s : GitManager.State) (r : GitManager.Repo) : GitManager.State :=
  GitManager.mkState (GitManager._local_workspace s) (GitManager._repo_details s)
    (Some r) (GitManager._feature_branch_name s) (GitManager.remote s)
    (GitManager.api_status s) (GitManager.sent s) (GitManager.log s).

(** The name [_remove_branch] deletes on the remote for a listed name. *)
Definition remote_name (branch : str) : str :=
  if startswith (py "remotes/origin/") branch
  then GitManager.remove_all_from (py "remotes/origin/") 0 branch
  else branch.

(** The name [create_feature_branch] gives the branch of [identifier] on
    the clone [r]. *)
Definition feature_branch_name (identifier : str) (r : GitManager.Repo) : str :=
  py "tech-debt-bot-" ++ identifier ++ py "-"
  ++ take 7 (GitManager.hexsha (GitManager.head_commit r)).

(** Why cleanup may delete [b] on the remote of the clone [r]: a listed
    automation branch stands for it whose name does not hold the current
    revision id and whose newest commit is by [author]. *)
Definition justified (r : GitManager.Repo) (author id : str) (b : str) : Prop :=
  exists name c cs,
    In (name, c :: cs) (GitManager.branches r)
    /\ str_in (py "tech-debt-bot-") name = true
    /\ str_in id name = false
    /\ GitManager.author_name c = author
    /\ b = remote_name name.

(** A computation that never loses the working clone. *)
Definition keeps_clone {A} (m : M GitManager.State A) : Prop :=
  forall s, initialized s -> initialized (exec m s).

(** *** Further sample data *)

(** A repository with a [sonar-project.properties]. *)
Definition sonar_properties : str :=
  py "# project settings
sonar.projectKey = my-project
sonar.sources=.
".
Definition sonar_world : CodeFileManager.World :=
  CodeFileManager.mkWorld {[ py "repo/sonar-project.properties" := sonar_properties ]} [].

(** The same file with a comment that mentions the key first. *)
Definition sonar_commented : str :=
  py "# sonar.projectKey goes below
sonar.projectKey=my-project
".
Definition sonar_commented_world : CodeFileManager.World :=
  CodeFileManager.mkWorld {[ py "repo/sonar-project.properties" := sonar_commented ]} [].

Definition two_lines : str := py "x = 1
y = 2".

(** A repository with two files. *)
Definition two_files_world : CodeFileManager.World :=
  CodeFileManager.mkWorld
    {[ py "repo/foo.py" := foo_py;
       py "repo/sonar-project.properties" := sonar_properties ]} [].

(** A manager on a clone of the sample remote, and one whose clone does
    not know the remote HEAD reference. *)
Definition working_manager : GitManager.State := with_tree fresh_manager sample_remote.

Definition headless_remote : GitManager.Repo :=
  GitManager.mkRepo head_c [(py "main", [head_c])] None (py "main") ∅ [].

Definition headless_manager : GitManager.State := with_tree fresh_manager headless_remote.

(** A manager for a URL without the [https] scheme, and one whose API
    refuses the request. *)
Definition ssh_manager : GitManager.State :=
  GitManager.new (py "/tmp/work") (py "git@github.com:acme/widgets.git")
    (py "bot") (py "secret") (Some sample_remote) 201.

Definition refused_manager : GitManager.State :=
  with_tree
    (GitManager.new (py "/tmp/work") (py "https://github.com/acme/widgets")
       (py "bot") (py "secret") (Some sample_remote) 422)
    sample_remote.

Definition five_lines : str := py "one
two
three
four
five".

(** * Properties *)

(** ** Strings *)

Section StringLemmas.

Lemma split_on_nonempty sep s : split_on sep s <> [].
Proof.
  destruct s as [|c s]; simpl; [discriminate|].
  destruct (c =? sep)%N; [discriminate|].
  destruct (split_on sep s); discriminate.
Qed.

Lemma split_on_no_sep sep s l : In l (split_on sep s) -> ~ In sep l.
Proof.
  revert l. induction s as [|c s IH]; simpl; intros l Hl.
  - destruct Hl as [<-|[]]. intros [].
  - destruct (c =? sep)%N eqn:E.
    + destruct Hl as [<-|Hl]; [intros []|auto].
    + destruct (split_on sep s) as [|l0 ls] eqn:Es.
      * destruct Hl as [<-|[]]. intros [->|[]].
        rewrite N.eqb_refl in E. discriminate.
      * destruct Hl as [<-|Hl].
        -- intros [->|Hin].
           ++ rewrite N.eqb_refl in E. discriminate.
           ++ apply (IH l0); [now left|assumption].
        -- apply IH. now right.
Qed.

(** A string without the separator is a single field. *)
Lemma split_on_app_no_sep sep l s :
  ~ In sep l ->
  split_on sep (l ++ s) =
    match split_on sep s with
    | l0 :: ls => (l ++ l0) :: ls
    | [] => [l]
    end.
Proof.
  induction l as [|c l IH]; simpl; intros Hn.
  - destruct (split_on sep s) eqn:E; [|reflexivity].
    now apply split_on_nonempty in E.
  - destruct (c =? sep)%N eqn:E.
    + apply N.eqb_eq in E. subst. exfalso. apply Hn. now left.
    + rewrite IH by (intros H; apply Hn; now right).
      destruct (split_on sep s); reflexivity.
Qed.

Lemma split_on_single sep l : ~ In sep l -> split_on sep l = [l].
Proof.
  intros Hn. rewrite <- (app_nil_r l) at 1.
  rewrite split_on_app_no_sep by assumption. simpl.
  now rewrite app_nil_r.
Qed.

(** Splitting a joined list gives the list back when no part holds the
    separator. *)
Lemma split_on_join sep parts :
  parts <> [] ->
  (forall l, In l parts -> ~ In sep l) ->
  split_on sep (join [sep] parts) = parts.
Proof.
  induction parts as [|l ls IH]; [congruence|].
  intros _ Hall. destruct ls as [|l' ls].
  - simpl. apply split_on_single. apply Hall. now left.
  - change (join [sep] (l :: l' :: ls)) with (l ++ [sep] ++ join [sep] (l' :: ls)).
    rewrite split_on_app_no_sep by (apply Hall; now left).
    change ([sep] ++ join [sep] (l' :: ls)) with (sep :: join [sep] (l' :: ls)).
    assert (Hs : split_on sep (sep :: join [sep] (l' :: ls)) = [] :: l' :: ls).
    { cbn [split_on]. rewrite N.eqb_refl. f_equal.
      apply IH; [discriminate|intros x Hx; apply Hall; now right]. }
    rewrite Hs. now rewrite app_nil_r.
Qed.

Lemma lstrip_by_app_all p l s :
  forallb p l = true -> lstrip_by p (l ++ s) = lstrip_by p s.
Proof.
  induction l as [|c l IH]; simpl; [reflexivity|].
  intros H. apply andb_true_iff in H as [Hc Hl]. rewrite Hc. auto.
Qed.

Lemma lstrip_by_length p s : (length (lstrip_by p s) <= length s)%nat.
Proof.
  induction s as [|c s IH]; simpl; [lia|].
  destruct (p c); simpl; lia.
Qed.

Lemma forallb_spaces p n : p SPACE = true -> forallb p (spaces n) = true.
Proof.
  intros Hp. unfold spaces. induction (Z.to_nat n); simpl; [reflexivity|].
  now rewrite Hp.
Qed.

Lemma length_spaces n : 0 <= n -> len (spaces n) = n.
Proof. intros H. unfold len, spaces. rewrite repeat_length. lia. Qed.

Lemma spaces_no_LF n : ~ In LF (spaces n).
Proof.
  unfold spaces. intros H. apply repeat_spec in H. discriminate.
Qed.

End StringLemmas.

(** ** Line buffers *)

Section LineBuffers.

Import CodeFileManager.

Lemma universal_newlines_no_CR s : ~ In CR (universal_newlines s).
Proof.
  assert (H : forall n s, (length s <= n)%nat -> ~ In CR (universal_newlines s)).
  { clear s. induction n as [|n IH]; intros [|c s] Hl; simpl in *; try tauto; try lia.
    destruct (c =? CR)%N eqn:Ec.
    - destruct s as [|d s'].
      + intros [H|[]]. discriminate.
      + destruct (d =? LF)%N.
        * apply IH. simpl in *. lia.
        * intros [H|H]; [discriminate|]. revert H. apply IH. simpl in *. lia.
    - intros [H|H]; [subst; now rewrite N.eqb_refl in Ec|].
      revert H. apply IH. lia. }
  apply (H (length s)). lia.
Qed.

Lemma universal_newlines_id s : ~ In CR s -> universal_newlines s = s.
Proof.
  induction s as [|c s IH]; simpl; [reflexivity|]. intros Hn.
  destruct (c =? CR)%N eqn:Ec.
  - apply N.eqb_eq in Ec. subst. exfalso. apply Hn. now left.
  - f_equal. apply IH. intros H. apply Hn. now right.
Qed.

Lemma concat_keepends s : concat (keepends s) = s.
Proof.
  induction s as [|c s IH]; simpl; [reflexivity|].
  destruct (c =? LF)%N eqn:Ec.
  - simpl. now rewrite IH.
  - destruct (keepends s) as [|l ls] eqn:Ek; simpl in *; now rewrite <- IH.
Qed.

(** A block followed by a newline is read as the lines of the block. *)
Lemma keepends_block block rest :
  keepends (block ++ LF :: rest)
    = map (fun l => l ++ [LF]) (split_on LF block) ++ keepends rest.
Proof.
  induction block as [|c b IH]; simpl.
  - reflexivity.
  - destruct (c =? LF)%N eqn:Ec.
    + apply N.eqb_eq in Ec. subst. simpl. now rewrite IH.
    + rewrite IH. pose proof (split_on_nonempty LF b).
      destruct (split_on LF b) as [|l0 ls]; [congruence|reflexivity].
Qed.

Lemma concat_split_block block :
  concat (map (fun l => l ++ [LF]) (split_on LF block)) = block ++ [LF].
Proof.
  induction block as [|c b IH]; simpl; [reflexivity|].
  destruct (c =? LF)%N eqn:Ec.
  - apply N.eqb_eq in Ec. subst. simpl. now rewrite IH.
  - pose proof (split_on_nonempty LF b).
    destruct (split_on LF b) as [|l0 ls]; [congruence|].
    simpl in *. now rewrite <- IH.
Qed.

Lemma keepends_terminated body rest :
  ~ In LF body -> keepends (body ++ LF :: rest) = (body ++ [LF]) :: keepends rest.
Proof.
  intros Hn. rewrite keepends_block, split_on_single by assumption. reflexivity.
Qed.

Lemma keepends_unterminated l : l <> [] -> ~ In LF l -> keepends l = [l].
Proof.
  induction l as [|c l IH]; [congruence|]. intros _ Hn. simpl.
  destruct (c =? LF)%N eqn:Ec.
  - apply N.eqb_eq in Ec. subst. exfalso. apply Hn. now left.
  - destruct l as [|d l]; [reflexivity|].
    rewrite IH; [reflexivity|discriminate|]. intros H. apply Hn. now right.
Qed.

Lemma wf_lines_keepends s : wf_lines (keepends s).
Proof.
  induction s as [|c s IH]; simpl; [exact I|].
  destruct (c =? LF)%N eqn:Ec.
  - apply N.eqb_eq in Ec. subst.
    assert (Ht : terminated [LF]) by (exists []; split; [reflexivity|intros []]).
    destruct (keepends s); simpl; auto.
  - apply N.eqb_neq in Ec.
    destruct (keepends s) as [|l ls]; simpl in *.
    + right. split; [discriminate|]. intros [H|[]]. congruence.
    + assert (Ht : terminated l -> terminated (c :: l)).
      { intros (body & -> & Hb). exists (c :: body). split; [reflexivity|].
        intros [H|H]; [congruence|tauto]. }
      destruct ls as [|l' ls'].
      * destruct IH as [H|[H1 H2]]; [left; auto|].
        right. split; [discriminate|]. intros [H|H]; [congruence|tauto].
      * destruct IH as [H1 H2]. split; auto.
Qed.

Lemma wf_lines_cons l ls : wf_lines (l :: ls) -> wf_lines ls.
Proof. destruct ls; simpl; tauto. Qed.

Lemma wf_lines_drop k ls : wf_lines ls -> wf_lines (drop k ls).
Proof.
  revert ls. induction k as [|k IH]; intros [|l ls] H; simpl; auto.
  apply IH. now apply wf_lines_cons in H.
Qed.

Lemma wf_lines_take k ls :
  wf_lines ls -> (k < length ls)%nat -> Forall terminated (take k ls).
Proof.
  revert ls. induction k as [|k IH]; intros [|l ls] H Hk; simpl in *;
    try constructor; try lia.
  - destruct ls as [|l' ls']; simpl in *; [lia|tauto].
  - apply IH; [now apply wf_lines_cons in H|lia].
Qed.

Lemma keepends_concat_wf ls : wf_lines ls -> keepends (concat ls) = ls.
Proof.
  induction ls as [|l ls IH]; [reflexivity|]. intros H.
  destruct ls as [|l' ls'].
  - simpl in *. rewrite app_nil_r. destruct H as [(body & -> & Hb)|[H1 H2]].
    + rewrite keepends_terminated by assumption. reflexivity.
    + now apply keepends_unterminated.
  - destruct H as [(body & -> & Hb) H]. cbn [concat].
    rewrite <- app_assoc. cbn [app]. rewrite keepends_terminated by assumption.
    f_equal. now apply IH.
Qed.

Lemma keepends_concat_terminated ls rest :
  Forall terminated ls -> keepends (concat ls ++ rest) = ls ++ keepends rest.
Proof.
  induction 1 as [|l ls (body & -> & Hb) _ IH]; [reflexivity|].
  cbn [concat]. rewrite <- !app_assoc. cbn [app].
  rewrite keepends_terminated by assumption. cbn [app]. f_equal. exact IH.
Qed.

Lemma in_concat_take {A} (x : A) k ls : In x (concat (take k ls)) -> In x (concat ls).
Proof.
  rewrite <- (take_drop k ls) at 2. rewrite concat_app. intros H.
  apply in_or_app. now left.
Qed.

Lemma in_concat_drop {A} (x : A) k ls : In x (concat (drop k ls)) -> In x (concat ls).
Proof.
  rewrite <- (take_drop k ls) at 2. rewrite concat_app. intros H.
  apply in_or_app. now right.
Qed.

Lemma join_split s : join [LF] (split_on LF s) = s.
Proof.
  induction s as [|c s IH]; simpl; [reflexivity|].
  destruct (c =? LF)%N eqn:Ec.
  - apply N.eqb_eq in Ec. subst. pose proof (split_on_nonempty LF s).
    destruct (split_on LF s) as [|l0 ls] eqn:Es; [congruence|].
    change (join [LF] ([] :: l0 :: ls)) with ([] ++ [LF] ++ join [LF] (l0 :: ls)).
    rewrite IH. reflexivity.
  - pose proof (split_on_nonempty LF s).
    destruct (split_on LF s) as [|l0 ls] eqn:Es; [congruence|].
    destruct ls as [|l1 ls]; simpl in *; now rewrite <- IH.
Qed.

Lemma in_join x sep parts :
  In x (join sep parts) -> In x sep \/ exists l, In l parts /\ In x l.
Proof.
  induction parts as [|l ls IH]; simpl; [tauto|].
  destruct ls as [|l' ls'].
  - intros H. right. exists l. auto.
  - intros H. apply in_app_or in H as [H|H]; [right; exists l; auto|].
    apply in_app_or in H as [H|H]; [now left|].
    destruct (IH H) as [?|(l0 & Hl0 & Hx)]; [now left|].
    right. exists l0. auto.
Qed.

Lemma in_split_on x sep s l : In l (split_on sep s) -> In x l -> In x s.
Proof.
  revert l. induction s as [|c s IH]; simpl; intros l Hl Hx.
  - destruct Hl as [<-|[]]. destruct Hx.
  - destruct (c =? sep)%N.
    + destruct Hl as [<-|Hl]; [destruct Hx|]. right. eauto.
    + destruct (split_on sep s) as [|l0 ls].
      * destruct Hl as [<-|[]]. destruct Hx as [<-|[]]. now left.
      * destruct Hl as [<-|Hl].
        -- destruct Hx as [<-|Hx]; [now left|]. right. apply (IH l0); auto. now left.
        -- right. apply (IH l); auto. now right.
Qed.

End LineBuffers.

Section IndentMeasures.

Import CodeFileManager.






(** [len(line) - len(line.lstrip(" "))] counts the spaces the line starts
    with. *)
Lemma leading_spaces_width l : leading_spaces l = indent_width l.
Proof.
  unfold leading_spaces, lstrip_spaces, len.
  induction l as [|c l IH]; [reflexivity|].
  cbn [lstrip_by indent_width]. rewrite (N.eqb_sym SPACE c).
  destruct (c =? SPACE)%N; cbn [length]; lia.
Qed.

Lemma indent_width_nonneg l : 0 <= indent_width l.
Proof. induction l as [|c l IH]; simpl; [lia|]. destruct (c =? SPACE)%N; lia. Qed.

Lemma indent_width_spaces n l :
  0 <= n -> indent_width (spaces n ++ l) = n + indent_width l.
Proof.
  intros Hn. unfold spaces. rewrite <- (Z2Nat.id n) at 2 by exact Hn.
  induction (Z.to_nat n) as [|k IH]; [reflexivity|].
  cbn [repeat app indent_width]. rewrite N.eqb_refl, IH. lia.
Qed.




End IndentMeasures.

(** ** The text-range editor *)

Section CodeFileManagerProperties.

Import CodeFileManager.

Variable self : t.

Lemma stat_key files path text :
  files !! path = Some text -> stat files path = IsFile path text.
Proof. intros H. unfold stat. now rewrite H. Qed.

Lemma walk_file files absolute dirs components key text :
  walk files absolute dirs components = IsFile key text -> files !! key = Some text.
Proof.
  revert dirs. induction components as [|c rest IH]; intros dirs; simpl; [discriminate|].
  destruct (_ || _); [apply IH|].
  destruct (bool_decide (c = py "..")).
  { destruct dirs; [destruct absolute; [apply IH|discriminate]|apply IH]. }
  destruct (files !! (dir_prefix absolute dirs ++ c)) as [t'|] eqn:E.
  - destruct (bool_decide (rest = [])); [|discriminate]. intros [= <- <-]. exact E.
  - destruct (has_directory _ _); [apply IH|].
    destruct (bool_decide (rest = [])); discriminate.
Qed.

(** The file a path names is filed under the key with the text. *)
Lemma stat_file files path key text :
  stat files path = IsFile key text -> files !! key = Some text.
Proof.
  unfold stat. destruct (files !! path) as [t'|] eqn:E.
  - intros [= <- <-]. exact E.
  - destruct (existsb _ path); [discriminate|].
    destruct (bool_decide (path = [])); [discriminate|]. apply walk_file.
Qed.

Lemma normalize_is_ok lr n s e :
  _normalize_line_range lr n 0 = Ok (s, e) ->
  (exists r, lr = LInt r /\ s = Z.max 1 r /\ e = Z.min n r)
  \/ (exists a b, lr = LTuple [a; b] /\ s = Z.max 1 a /\ e = Z.min n b).
Proof.
  destruct lr as [r|items|]; simpl; [|
    destruct items as [|a [|b [|c items]]]; simpl |]; intros H;
    try discriminate; injection H as <- <-.
  - left. exists r. repeat split; f_equal; lia.
  - right. exists a, b. repeat split; f_equal; lia.
Qed.

Lemma in_bounds_spec {A} (l : list A) s e :
  in_bounds l s e = true <-> 1 <= s <= e /\ e <= len l.
Proof.
  unfold in_bounds. rewrite !andb_true_iff, !Z.leb_le. lia.
Qed.

(** The usage errors are not the missing file: the handler lets them
    pass. *)
Lemma substitute_error lr (file_lines : list str) s e block x :
  substitute lr file_lines s e block = Raise x -> is_FileNotFoundError x = false.
Proof.
  unfold substitute.
  destruct lr as [r|[|a [|b [|c items]]]|]; try (intros [= <-]; reflexivity).
  - destruct (in_bounds _ s e); [|intros [= <-]; reflexivity].
    unfold set_item. destruct (_ && _); [discriminate|]. intros [= <-]. reflexivity.
  - destruct (in_bounds _ s e); [discriminate|]. intros [= <-]. reflexivity.
Qed.

Lemma normalize_error lr n x :
  _normalize_line_range lr n 0 = Raise x -> is_FileNotFoundError x = false.
Proof.
  destruct lr as [r|[|a [|b [|c items]]]|]; simpl; try discriminate;
    intros [= <-]; reflexivity.
Qed.

(** [update_code_segment] on a path that names a file. *)
Lemma update_unfold_file path lr code rel w key text :
  stat (fs w) (resolve self path rel) = IsFile key text ->
  update_code_segment self path lr code rel w =
    let file_lines := keepends (universal_newlines text) in
    match _normalize_line_range lr (len file_lines) 0 with
    | Raise e => (Raise e, w)
    | Ok (s, e) =>
        match substitute lr file_lines s e (reindent file_lines s e code) with
        | Raise x => (Raise x, w)
        | Ok file_lines' =>
            (Ok tt, mkWorld (<[key := concat file_lines']> (fs w)) (log w))
        end
    end.
Proof.
  intros Hf. unfold update_code_segment, try_except, bind, readlines, lift, writelines.
  rewrite Hf. cbn zeta.
  destruct (_normalize_line_range lr _ 0) as [[s e]|x] eqn:Hn.
  - destruct (substitute lr _ s e _) as [l'|x] eqn:Hs.
    + rewrite Hf. reflexivity.
    + now rewrite (substitute_error _ _ _ _ _ _ Hs).
  - now rewrite (normalize_error _ _ _ Hn).
Qed.

Lemma update_unfold path lr code rel w text :
  fs w !! resolve self path rel = Some text ->
  update_code_segment self path lr code rel w =
    let file_lines := keepends (universal_newlines text) in
    match _normalize_line_range lr (len file_lines) 0 with
    | Raise e => (Raise e, w)
    | Ok (s, e) =>
        match substitute lr file_lines s e (reindent file_lines s e code) with
        | Raise x => (Raise x, w)
        | Ok file_lines' =>
            (Ok tt, mkWorld (<[resolve self path rel := concat file_lines']> (fs w)) (log w))
        end
    end.
Proof. intros Hf. apply update_unfold_file, stat_key, Hf. Qed.

(** [update_code_segment] on a path that names no file: the error of
    [open] is raised from the first statement of the [try] block. *)
Lemma update_unfold_no_file path lr code rel w :
  (forall key text, stat (fs w) (resolve self path rel) <> IsFile key text) ->
  update_code_segment self path lr code rel w =
    match open_error (stat (fs w) (resolve self path rel)) with
    | FileNotFoundError =>
        (Ok tt, mkWorld (fs w) (log w ++ [LogException "improving code range"]))
    | e => (Raise e, w)
    end.
Proof.
  intros Hf. unfold update_code_segment, try_except, bind, readlines.
  destruct (stat (fs w) (resolve self path rel)) as [k t'| |k| | | |];
    try reflexivity.
  now destruct (Hf k t').
Qed.



Lemma leading_spaces_nonneg l : 0 <= leading_spaces l.
Proof. rewrite leading_spaces_width. apply indent_width_nonneg. Qed.

Lemma leading_spaces_indented n l :
  0 <= n -> leading_spaces (spaces n ++ l) = n + leading_spaces l.
Proof. intros Hn. rewrite !leading_spaces_width. now apply indent_width_spaces. Qed.



Lemma py_slice_in_bounds {A} (l : list A) s e :
  1 <= s <= e /\ e <= len l ->
  py_slice l (s - 1) e = take (Z.to_nat (e - s + 1)) (drop (Z.to_nat (s - 1)) l).
Proof.
  unfold py_slice, slice_bound, len. intros H.
  destruct (s - 1 <? 0) eqn:E1; [apply Z.ltb_lt in E1; lia|].
  destruct (e <? 0) eqn:E2; [apply Z.ltb_lt in E2; lia|].
  f_equal; [lia|f_equal; lia].
Qed.

Lemma py_slice_assign_in_bounds {A} (l : list A) s e new :
  1 <= s <= e /\ e <= len l ->
  py_slice_assign l (s - 1) e new
    = take (Z.to_nat (s - 1)) l ++ new ++ drop (Z.to_nat e) l.
Proof.
  unfold py_slice_assign, slice_bound, len. intros H.
  destruct (s - 1 <? 0) eqn:E1; [apply Z.ltb_lt in E1; lia|].
  destruct (e <? 0) eqn:E2; [apply Z.ltb_lt in E2; lia|].
  f_equal; [f_equal; lia|]. f_equal. f_equal. lia.
Qed.

(** The lines of an indented text are the lines of the text, each after the
    indentation. *)
Lemma split_apply_indent code n :
  split_on LF (_apply_indent code n)
    = map (fun line => spaces n ++ line) (split_on LF code).
Proof.
  unfold _apply_indent. apply split_on_join.
  - pose proof (split_on_nonempty LF code). destruct (split_on LF code); [congruence|discriminate].
  - intros l Hl. apply in_map_iff in Hl as (l' & <- & Hl').
    intros Hin. apply in_app_or in Hin as [Hin|Hin].
    + now apply spaces_no_LF in Hin.
    + now apply split_on_no_sep in Hl'.
Qed.

(** Within bounds both forms of the range replace the lines [start .. end]
    by the one block. *)
Lemma substitute_in_bounds lr (file_lines : list str) s e block :
  _normalize_line_range lr (len file_lines) 0 = Ok (s, e) ->
  1 <= s <= e /\ e <= len file_lines ->
  substitute lr file_lines s e block
    = Ok (take (Z.to_nat (s - 1)) file_lines ++ [block ++ [LF]]
          ++ drop (Z.to_nat e) file_lines).
Proof.
  intros Hn Hb. pose proof Hb as Hb'. rewrite <- in_bounds_spec in Hb'.
  unfold substitute.
  destruct (normalize_is_ok _ _ _ _ Hn) as [(r & -> & Hs & He)|(a & b & -> & _)];
    rewrite Hb'.
  - unfold set_item.
    replace ((0 <=? s - 1) && (s - 1 <? len file_lines)) with true
      by (symmetry; apply andb_true_iff; rewrite Z.leb_le, Z.ltb_lt; lia).
    f_equal. assert (e = s) as -> by lia.
    rewrite insert_take_drop by (unfold len in Hb; lia).
    simpl. do 3 f_equal. lia.
  - now rewrite py_slice_assign_in_bounds.
Qed.

Lemma reindent_no_CR file_lines s e code :
  ~ In CR code -> ~ In CR (reindent file_lines s e code).
Proof.
  intros Hn. unfold reindent. destruct (_ <? _); [|exact Hn].
  unfold _apply_indent. intros H. apply in_join in H as [H|(l & Hl & Hx)].
  - destruct H as [H|[]]. discriminate.
  - apply in_map_iff in Hl as (l' & <- & Hl').
    apply in_app_or in Hx as [Hx|Hx].
    + unfold spaces in Hx. apply repeat_spec in Hx. discriminate.
    + apply Hn. eapply in_split_on; eauto.
Qed.

Lemma reindent_line_count file_lines s e code :
  length (split_on LF (reindent file_lines s e code)) = length (split_on LF code).
Proof.
  unfold reindent. destruct (_ <? _); [|reflexivity].
  rewrite split_apply_indent. apply length_map.
Qed.

(** The world a replacement within bounds leaves. *)
Lemma update_result path lr code rel w text s e :
  fs w !! resolve self path rel = Some text ->
  let file_lines := keepends (universal_newlines text) in
  _normalize_line_range lr (len file_lines) 0 = Ok (s, e) ->
  1 <= s <= e /\ e <= len file_lines ->
  update_code_segment self path lr code rel w
    = (Ok tt,
       mkWorld
         (<[resolve self path rel :=
              concat (take (Z.to_nat (s - 1)) file_lines
                      ++ [reindent file_lines s e code ++ [LF]]
                      ++ drop (Z.to_nat e) file_lines)]> (fs w))
         (log w)).
Proof.
  intros Hf file_lines Hn Hb.
  rewrite (update_unfold _ _ _ _ _ _ Hf). cbn zeta. fold file_lines.
  rewrite Hn. now rewrite (substitute_in_bounds _ _ _ _ _ Hn Hb).
Qed.

(** The lines of the file after a replacement within bounds by a text
    without carriage return. *)
Lemma update_readlines path lr code rel w text s e :
  fs w !! resolve self path rel = Some text ->
  let file_lines := keepends (universal_newlines text) in
  _normalize_line_range lr (len file_lines) 0 = Ok (s, e) ->
  1 <= s <= e /\ e <= len file_lines ->
  ~ In CR code ->
  let w' := exec (update_code_segment self path lr code rel) w in
  readlines (resolve self path rel) w'
    = (Ok (take (Z.to_nat (s - 1)) file_lines
           ++ map (fun l => l ++ [LF])
                (split_on LF (reindent file_lines s e code))
           ++ drop (Z.to_nat e) file_lines), w').
Proof.
  intros Hf file_lines Hn Hb Hcr w'.
  set (block := reindent file_lines s e code).
  assert (Hw : w' = mkWorld
         (<[resolve self path rel :=
              concat (take (Z.to_nat (s - 1)) file_lines
                      ++ [block ++ [LF]]
                      ++ drop (Z.to_nat e) file_lines)]> (fs w)) (log w)).
  { unfold w', exec. now rewrite (update_result _ _ _ _ _ _ _ _ Hf Hn Hb). }
  unfold readlines. rewrite Hw at 1. cbn [fs].
  rewrite (stat_key _ _ _ (lookup_insert_eq _ _ _)).
  do 2 f_equal.
  rewrite !concat_app. cbn [concat]. rewrite app_nil_r.
  rewrite universal_newlines_id.
  - rewrite keepends_concat_terminated.
    + f_equal. rewrite <- app_assoc. cbn [app]. rewrite keepends_block.
      f_equal. apply keepends_concat_wf, wf_lines_drop, wf_lines_keepends.
    + apply wf_lines_take; [apply wf_lines_keepends|]. unfold len in Hb. lia.
  - intros H. apply in_app_or in H as [H|H].
    + apply in_concat_take in H. unfold file_lines in H.
      rewrite concat_keepends in H. now apply universal_newlines_no_CR in H.
    + apply in_app_or in H as [H|H].
      * apply in_app_or in H as [H|[H|[]]]; [|discriminate].
        now apply reindent_no_CR in H.
      * apply in_concat_drop in H. unfold file_lines in H.
        rewrite concat_keepends in H. now apply universal_newlines_no_CR in H.
Qed.

Lemma readback_length (file_lines : list str) s e code :
  1 <= s <= e /\ e <= len file_lines ->
  len (take (Z.to_nat (s - 1)) file_lines
       ++ map (fun l => l ++ [LF]) (split_on LF (reindent file_lines s e code))
       ++ drop (Z.to_nat e) file_lines)
  = len file_lines - (e - s + 1) + SonarAgent.inserted_lines code.
Proof.
  intros Hb. unfold len, SonarAgent.inserted_lines, len.
  rewrite !length_app, length_map, length_take, length_drop.
  rewrite reindent_line_count. unfold len in Hb. lia.
Qed.


(** C9.  For an integer [r] or a pair [(a, b)], a line count of at least 1
    and a padding of at least 0, [_normalize_line_range] returns
    [max(1, r - padding)] and [min(total, r + padding)] (for a pair, from [a]
    and from [b]); the returned start is at least 1, the returned end at most
    the line count, and a result is returned, not an exception, whatever the
    order of start and end. *)
Theorem normalize_line_range_clamps (r a b total padding : Z) :
  1 <= total -> 0 <= padding ->
  _normalize_line_range (LInt r) total padding
    = Ok (Z.max 1 (r - padding), Z.min total (r + padding))
  /\ _normalize_line_range (LTuple [a; b]) total padding
    = Ok (Z.max 1 (a - padding), Z.min total (b + padding))
  /\ (forall lr, lr = LInt r \/ lr = LTuple [a; b] ->
      exists start_line end_line,
        _normalize_line_range lr total padding = Ok (start_line, end_line)
        /\ 1 <= start_line /\ end_line <= total).
Proof.
  intros _ _. split; [reflexivity|]. split; [reflexivity|].
  intros lr [->| ->]; eexists _, _; (split; [reflexivity|]); lia.
Qed.

(** A start past the end is returned as it is. *)
Lemma normalize_line_range_clamps_witness :
  1 <= 10 /\ 0 <= 0 /\
  _normalize_line_range (LTuple [5; 3]) 10 0 = Ok (5, 3).
Proof.
  split; [lia|]. split; [lia|].
  exact (proj1 (proj2 (normalize_line_range_clamps 0 5 3 10 0
                         ltac:(lia) ltac:(lia)))).
Defined.


(** C2.  On an existing file, when the normalised range does not satisfy
    [1 <= start <= end <= line_count], [update_code_segment] raises the
    bounds error and the world (every file, byte for byte) is as before; this
    is the case of the range [(5, 3)] on a file of five lines or more.  When
    the bounds hold, the call returns normally. *)
Theorem update_code_segment_rejects_bounds path lr code rel w text :
  fs w !! resolve self path rel = Some text ->
  let file_lines := keepends (universal_newlines text) in
  (forall start_line end_line,
     _normalize_line_range lr (len file_lines) 0 = Ok (start_line, end_line) ->
     ~ (1 <= start_line <= end_line /\ end_line <= len file_lines) ->
     update_code_segment self path lr code rel w = (Raise InvalidRangeBounds, w))
  /\ (5 <= len file_lines ->
      update_code_segment self path (LTuple [5; 3]) code rel w
        = (Raise InvalidRangeBounds, w))
  /\ (forall start_line end_line,
     _normalize_line_range lr (len file_lines) 0 = Ok (start_line, end_line) ->
     1 <= start_line <= end_line /\ end_line <= len file_lines ->
     fst (update_code_segment self path lr code rel w) = Ok tt).
Proof.
  intros Hf file_lines.
  assert (Hbad : forall lr' s e,
            _normalize_line_range lr' (len file_lines) 0 = Ok (s, e) ->
            ~ (1 <= s <= e /\ e <= len file_lines) ->
            update_code_segment self path lr' code rel w = (Raise InvalidRangeBounds, w)).
  { intros lr' s e Hn Hb. rewrite (update_unfold _ _ _ _ _ _ Hf).
    cbn zeta. fold file_lines. rewrite Hn.
    rewrite <- in_bounds_spec in Hb. apply not_true_is_false in Hb.
    unfold substitute.
    destruct (normalize_is_ok _ _ _ _ Hn) as [(r & -> & _)|(a & b & -> & _)];
      rewrite Hb; reflexivity. }
  split; [exact (Hbad lr)|]. split.
  - intros _. apply (Hbad _ 5 (Z.min (len file_lines) 3)); [reflexivity|lia].
  - intros s e Hn Hb. rewrite (update_unfold _ _ _ _ _ _ Hf).
    cbn zeta. fold file_lines. rewrite Hn.
    pose proof Hb as Hb'. rewrite <- in_bounds_spec in Hb'.
    unfold substitute.
    destruct (normalize_is_ok _ _ _ _ Hn) as [(r & -> & _)|(a & b & -> & _)];
      rewrite Hb'; [|reflexivity].
    unfold set_item.
    replace ((0 <=? s - 1) && (s - 1 <? len file_lines)) with true; [reflexivity|].
    symmetry. apply andb_true_iff. rewrite Z.leb_le, Z.ltb_lt. lia.
Qed.



End CodeFileManagerProperties.

Section CodeFileManagerExamples.

Import CodeFileManager.



(** The range [(5, 3)] on the ten lines of [foo.py]. *)
Lemma update_code_segment_rejects_bounds_witness :
  update_code_segment sample_manager (py "foo.py") (LTuple [5; 3]) (py "x") true sample_world
  = (Raise InvalidRangeBounds, sample_world).
Proof.
  refine (proj1 (proj2 (update_code_segment_rejects_bounds sample_manager (py "foo.py")
                   (LTuple [5; 3]) (py "x") true sample_world foo_py _)) _).
  - vm_compute. reflexivity.
  - vm_compute. discriminate.
Defined.


End CodeFileManagerExamples.

(** ** The cache *)

Section Codec.

Import FileBasedStore.

Local Ltac Zify.zify_post_hook ::= Z.to_euclidean_division_equations.

(** Decide a comparison that occurs in the goal from the arithmetic facts
    at hand. *)
Local Ltac settle b v :=
  replace b with v
    by (symmetry;
        rewrite ?andb_true_iff, ?andb_false_iff, ?negb_true_iff,
          ?N.leb_le, ?N.ltb_lt, ?N.leb_gt, ?N.ltb_ge, ?N.eqb_eq, ?N.eqb_neq;
        lia).

Lemma utf8_char_roundtrip c bs rest :
  utf8_encode_char c = Some bs ->
  utf8_decode (bs ++ rest) = cons c <$> utf8_decode rest.
Proof.
  unfold utf8_encode_char.
  destruct (c <? 128)%N eqn:E1.
  { intros [= <-]. simpl. now rewrite E1. }
  apply N.ltb_ge in E1.
  destruct (c <? 2048)%N eqn:E2.
  { intros [= <-]. apply N.ltb_lt in E2.
    cbn [app utf8_decode]. unfold is_cont.
    settle (192 + c / 64 <? 128)%N false.
    settle ((194 <=? 192 + c / 64) && (192 + c / 64 <? 224))%N true.
    settle ((128 <=? 128 + c mod 64) && (128 + c mod 64 <? 192))%N true.
    replace ((192 + c / 64 - 192) * 64 + (128 + c mod 64 - 128))%N with c by lia.
    reflexivity. }
  apply N.ltb_ge in E2.
  destruct (c <? 65536)%N eqn:E3.
  { apply N.ltb_lt in E3.
    destruct ((55296 <=? c) && (c <=? 57343))%N eqn:Es; [discriminate|].
    intros [= <-]. cbn [app utf8_decode]. unfold is_cont.
    settle (224 + c / 4096 <? 128)%N false.
    settle ((194 <=? 224 + c / 4096) && (224 + c / 4096 <? 224))%N false.
    settle ((224 <=? 224 + c / 4096) && (224 + c / 4096 <? 240))%N true.
    settle ((128 <=? 128 + (c / 64) mod 64) && (128 + (c / 64) mod 64 <? 192))%N true.
    settle ((128 <=? 128 + c mod 64) && (128 + c mod 64 <? 192))%N true.
    replace ((224 + c / 4096 - 224) * 4096 + (128 + (c / 64) mod 64 - 128) * 64
             + (128 + c mod 64 - 128))%N with c by lia.
    settle (2048 <=? c)%N true. rewrite Es. reflexivity. }
  apply N.ltb_ge in E3.
  destruct (c <? 1114112)%N eqn:E4; [|discriminate].
  intros [= <-]. pose proof E4 as E4'. apply N.ltb_lt in E4'.
  cbn [app utf8_decode]. unfold is_cont.
  settle (240 + c / 262144 <? 128)%N false.
  settle ((194 <=? 240 + c / 262144) && (240 + c / 262144 <? 224))%N false.
  settle ((224 <=? 240 + c / 262144) && (240 + c / 262144 <? 240))%N false.
  settle ((240 <=? 240 + c / 262144) && (240 + c / 262144 <? 245))%N true.
  settle ((128 <=? 128 + (c / 4096) mod 64) && (128 + (c / 4096) mod 64 <? 192))%N true.
  settle ((128 <=? 128 + (c / 64) mod 64) && (128 + (c / 64) mod 64 <? 192))%N true.
  settle ((128 <=? 128 + c mod 64) && (128 + c mod 64 <? 192))%N true.
  replace ((240 + c / 262144 - 240) * 262144 + (128 + (c / 4096) mod 64 - 128) * 4096
           + (128 + (c / 64) mod 64 - 128) * 64 + (128 + c mod 64 - 128))%N
    with c by lia.
  settle (65536 <=? c)%N true. rewrite E4. reflexivity.
Qed.

(** Strict UTF-8 decoding undoes the encoding. *)
Lemma utf8_roundtrip s bs : utf8_encode s = Some bs -> utf8_decode bs = Some s.
Proof.
  revert bs. induction s as [|c s IH]; simpl; intros bs.
  - now intros [= <-].
  - destruct (utf8_encode_char c) as [b|] eqn:Ec; [|discriminate].
    destruct (utf8_encode s) as [b'|]; [|discriminate].
    intros [= <-]. rewrite (utf8_char_roundtrip _ _ _ Ec), (IH b' eq_refl).
    reflexivity.
Qed.

Lemma utf8_encode_char_bytes c bs :
  utf8_encode_char c = Some bs -> Forall (fun b => (b < 256)%N) bs.
Proof.
  unfold utf8_encode_char.
  destruct (c <? 128)%N eqn:E1.
  { apply N.ltb_lt in E1. intros [= <-]. repeat constructor. lia. }
  destruct (c <? 2048)%N eqn:E2.
  { apply N.ltb_lt in E2. intros [= <-]. repeat constructor; lia. }
  destruct (c <? 65536)%N eqn:E3.
  { apply N.ltb_lt in E3. destruct (_ && _); [discriminate|].
    intros [= <-]. repeat constructor; lia. }
  destruct (c <? 1114112)%N eqn:E4; [|discriminate].
  apply N.ltb_lt in E4. intros [= <-]. repeat constructor; lia.
Qed.

Lemma utf8_encode_bytes s bs :
  utf8_encode s = Some bs -> Forall (fun b => (b < 256)%N) bs.
Proof.
  revert bs. induction s as [|c s IH]; simpl; intros bs.
  - intros [= <-]. constructor.
  - destruct (utf8_encode_char c) as [b|] eqn:Ec; [|discriminate].
    destruct (utf8_encode s) as [b'|]; [|discriminate].
    intros [= <-]. apply Forall_app. split; [now apply (utf8_encode_char_bytes c)|auto].
Qed.

Lemma utf8_encode_ascii s : ascii_only s -> utf8_encode s = Some s.
Proof.
  induction 1 as [|c s Hc _ IH]; simpl; [reflexivity|].
  unfold utf8_encode_char. apply N.ltb_lt in Hc. now rewrite Hc, IH.
Qed.

Lemma utf8_decode_ascii s : ascii_only s -> utf8_decode s = Some s.
Proof.
  induction 1 as [|c s Hc _ IH]; simpl; [reflexivity|].
  apply N.ltb_lt in Hc. now rewrite Hc, IH.
Qed.

Lemma b64_char_val v : (v < 64)%N ->
  b64_val (b64_char v) = Some v /\ (b64_char v < 128)%N /\ b64_char v <> PAD.
Proof.
  intros Hv. unfold b64_char, b64_val, PAD.
  destruct (v <? 26)%N eqn:E1.
  { apply N.ltb_lt in E1.
    settle ((65 <=? 65 + v) && (65 + v <=? 90))%N true.
    repeat split; [f_equal|..]; lia. }
  apply N.ltb_ge in E1. destruct (v <? 52)%N eqn:E2.
  { apply N.ltb_lt in E2.
    settle ((65 <=? 97 + (v - 26)) && (97 + (v - 26) <=? 90))%N false.
    settle ((97 <=? 97 + (v - 26)) && (97 + (v - 26) <=? 122))%N true.
    repeat split; [f_equal|..]; lia. }
  apply N.ltb_ge in E2. destruct (v <? 62)%N eqn:E3.
  { apply N.ltb_lt in E3.
    settle ((65 <=? 48 + (v - 52)) && (48 + (v - 52) <=? 90))%N false.
    settle ((97 <=? 48 + (v - 52)) && (48 + (v - 52) <=? 122))%N false.
    settle ((48 <=? 48 + (v - 52)) && (48 + (v - 52) <=? 57))%N true.
    repeat split; [f_equal|..]; lia. }
  apply N.ltb_ge in E3. destruct (v =? 62)%N eqn:E4.
  { apply N.eqb_eq in E4. subst v. repeat split; try reflexivity; try discriminate. }
  apply N.eqb_neq in E4. assert (v = 63%N) as -> by lia.
  repeat split; try reflexivity; try discriminate.
Qed.

(** Lists three elements at a time. *)
Lemma list_ind3 {A} (P : list A -> Prop) :
  P [] -> (forall a, P [a]) -> (forall a b, P [a; b]) ->
  (forall a b c l, P l -> P (a :: b :: c :: l)) ->
  forall l, P l.
Proof.
  intros H0 H1 H2 H3.
  assert (H : forall l, P l /\ (forall a, P (a :: l)) /\ (forall a b, P (a :: b :: l))).
  { induction l as [|x l (IH0 & IH1 & IH2)]; [auto|].
    split; [apply IH1|]. split; [intros a; apply IH2|]. intros a b. now apply H3. }
  intros l. apply H.
Qed.

Local Ltac use_char v :=
  let H := fresh in
  pose proof (b64_char_val v ltac:(lia)) as (H & _ & _); rewrite H; clear H.

Local Ltac not_pad v :=
  replace (b64_char v =? PAD)%N with false
    by (symmetry; apply N.eqb_neq; apply (b64_char_val v); lia).

(** Base64 decoding undoes the encoding. *)
Lemma b64_roundtrip bs :
  Forall (fun b => (b < 256)%N) bs -> b64decode (b64encode bs) = Some bs.
Proof.
  induction bs as [|a|a b|a b c rest IH] using list_ind3; intros Hb.
  - reflexivity.
  - apply Forall_cons in Hb as [Ha _].
    cbn [b64encode b64decode]. use_char (a / 4)%N. use_char (a mod 4 * 16)%N.
    rewrite N.eqb_refl. simpl. do 2 f_equal. lia.
  - apply Forall_cons in Hb as [Ha Hb]. apply Forall_cons in Hb as [Hb _].
    cbn [b64encode b64decode].
    use_char (a / 4)%N. use_char (a mod 4 * 16 + b / 16)%N.
    not_pad (b mod 16 * 4)%N. use_char (b mod 16 * 4)%N.
    rewrite N.eqb_refl. simpl. f_equal. f_equal; [lia|f_equal; lia].
  - apply Forall_cons in Hb as [Ha Hb]. apply Forall_cons in Hb as [Hb Hc].
    apply Forall_cons in Hc as [Hc Hrest].
    cbn [b64encode app b64decode].
    use_char (a / 4)%N. use_char (a mod 4 * 16 + b / 16)%N.
    not_pad (b mod 16 * 4 + c / 64)%N. use_char (b mod 16 * 4 + c / 64)%N.
    not_pad (c mod 64)%N. use_char (c mod 64)%N.
    rewrite (IH Hrest). simpl. f_equal. f_equal; [lia|]. f_equal; [lia|]. f_equal; lia.
Qed.

Lemma b64encode_ascii bs :
  Forall (fun b => (b < 256)%N) bs -> ascii_only (b64encode bs).
Proof.
  unfold ascii_only.
  induction bs as [|a|a b|a b c rest IH] using list_ind3; intros Hb.
  - constructor.
  - apply Forall_cons in Hb as [Ha _]. cbn [b64encode].
    repeat constructor; try (apply b64_char_val; lia); unfold PAD; lia.
  - apply Forall_cons in Hb as [Ha Hb]. apply Forall_cons in Hb as [Hb _].
    cbn [b64encode].
    repeat constructor; try (apply b64_char_val; lia); unfold PAD; lia.
  - apply Forall_cons in Hb as [Ha Hb]. apply Forall_cons in Hb as [Hb Hc].
    apply Forall_cons in Hc as [Hc Hrest]. cbn [b64encode app].
    repeat (constructor; [apply b64_char_val; lia|]). auto.
Qed.

(** [_deserialize_content] is the inverse of [_serialize_content] on a
    key that is handed to it as text. *)
Lemma deserialize_serialize text key :
  _serialize_content text = Ok key ->
  _deserialize_content (CStr key) = Ok (str_of text).
Proof.
  unfold _serialize_content, _deserialize_content, cell_encode.
  destruct (utf8_encode (str_of text)) as [bytes|] eqn:Ee; [|discriminate].
  pose proof (utf8_encode_bytes _ _ Ee) as Hb.
  rewrite (utf8_decode_ascii _ (b64encode_ascii _ Hb)). intros [= <-].
  rewrite (utf8_encode_ascii _ (b64encode_ascii _ Hb)). simpl.
  rewrite (b64_roundtrip _ Hb), (utf8_roundtrip _ _ Ee). reflexivity.
Qed.

End Codec.

Section FileBasedStoreProperties.

Import FileBasedStore.

Lemma plain_kind field : plain field = true -> classify field = KText /\ field <> [].
Proof.
  intros H. unfold classify. rewrite H.
  destruct field as [|c f]; [discriminate|]. split; [reflexivity|discriminate].
Qed.

Lemma as_text_plain field : read_as_text field -> as_text field = CStr field.
Proof. intros H. apply plain_kind in H as [_ H]. destruct field; [congruence|reflexivity]. Qed.

Lemma text_field_kind field :
  field = [] \/ read_as_text field ->
  is_empty_or_text field = true /\ is_other field = false
  /\ (is_text field = false -> field = []).
Proof.
  unfold is_empty_or_text, is_other, is_text.
  intros [->|H]; [repeat split|].
  apply plain_kind in H as [-> _]. repeat split. discriminate.
Qed.

(** A table of text is read as it was written, the empty fields as
    missing values. *)
Lemma read_csv_text rows : text_table rows -> read_csv rows = Ok (map as_text rows).
Proof.
  intros Ht. unfold text_table in Ht. rewrite List.Forall_forall in Ht. unfold read_csv.
  assert (H1 : forallb is_empty_or_text rows = true).
  { apply forallb_forall. intros f Hf. apply (text_field_kind f), Ht, Hf. }
  assert (H2 : existsb is_other rows = false).
  { apply not_true_is_false. intros H. apply existsb_exists in H as (f & Hf & Ho).
    destruct (text_field_kind f (Ht f Hf)) as (_ & E & _). congruence. }
  rewrite H1, H2. destruct (existsb is_text rows) eqn:E; [reflexivity|].
  replace (forallb (fun field => negb (truthy field)) rows) with true; [reflexivity|].
  symmetry. apply forallb_forall. intros f Hf.
  destruct (text_field_kind f (Ht f Hf)) as (_ & _ & H3).
  rewrite H3; [reflexivity|].
  apply not_true_is_false. intros H. apply not_true_iff_false in E. apply E.
  apply existsb_exists. eauto.
Qed.

Lemma to_csv_as_text field : to_csv_cell (as_text field) = field.
Proof. destruct field; reflexivity. Qed.

Lemma rewrite_rows rows : map to_csv_cell (map as_text rows) = rows.
Proof.
  induction rows as [|r rows IH]; simpl; [reflexivity|].
  now rewrite to_csv_as_text, IH.
Qed.

(** In a column of strings the first row that equals a non-empty key is
    the first field that is the key. *)
Lemma find_entry_text key rows :
  key <> [] ->
  match find_entry key (map as_text rows) with
  | Some i => rows !! i = Some key /\ forall j, (j < i)%nat -> rows !! j <> Some key
  | None => ~ In key rows
  end.
Proof.
  intros Hk. induction rows as [|r rows IH]; simpl; [tauto|].
  assert (Hc : cell_is key (as_text r) = bool_decide (r = key)).
  { destruct r as [|c r]; [|reflexivity]. simpl.
    symmetry. apply bool_decide_eq_false_2. congruence. }
  rewrite Hc. destruct (bool_decide (r = key)) eqn:E.
  - apply bool_decide_eq_true_1 in E. subst. split; [reflexivity|]. intros j Hj. lia.
  - apply bool_decide_eq_false_1 in E.
    destruct (find_entry key (map as_text rows)) as [i|]; simpl.
    + destruct IH as [H1 H2]. split; [exact H1|].
      intros [|j] Hj; simpl; [congruence|]. apply H2. lia.
    + intros [H|H]; auto.
Qed.

Lemma find_entry_app_new key df :
  find_entry key df = None ->
  find_entry key (df ++ [CStr key]) = Some (length df).
Proof.
  induction df as [|c df IH]; simpl.
  - intros _. now rewrite bool_decide_eq_true_2.
  - destruct (cell_is key c); [discriminate|].
    destruct (find_entry key df); [discriminate|]. intros _.
    now rewrite IH.
Qed.

Lemma find_entry_lookup kq df i :
  find_entry kq df = Some i -> df !! i = Some (CStr kq).
Proof.
  revert i. induction df as [|c df IH]; simpl; intros i; [discriminate|].
  destruct (cell_is kq c) eqn:Ec.
  - intros [= <-]. destruct c as [s| | |]; try discriminate. simpl in Ec.
    apply bool_decide_eq_true_1 in Ec. now subst.
  - destruct (find_entry kq df) as [j|]; [|discriminate].
    intros [= <-]. simpl. now apply IH.
Qed.

Lemma find_entry_modelled kq d i :
  find_entry kq (index_of d) = Some i -> index_modelled d.
Proof.
  unfold index_of, index_modelled. destruct (index_file d) as [rows|]; [|exact (fun _ => I)].
  destruct (read_csv rows) as [cells|e]; [eauto|discriminate].
Qed.

(** [store], case by case. *)
Lemma store_cases query result d kq ka :
  _serialize_content query = Ok kq ->
  _serialize_content result = Ok ka ->
  index_modelled d ->
  store query result d =
    match find_entry kq (index_of d) with
    | Some entry_id =>
        match payload_files d !! entry_id with
        | Some _ => (Ok false, d)
        | None => (Raise FileNotFoundError, d)
        end
    | None =>
        (Ok true,
         mkDisk (Some (map to_csv_cell (index_of d ++ [CStr kq])))
           (<[length (index_of d) := [ka]]> (payload_files d)) (log d))
    end.
Proof.
  intros Hq Ha Hm. unfold store, bind, lift. rewrite Hq, Ha.
  unfold index_exists, read_index, index_of, index_modelled in *.
  destruct d as [[rows|] pay lg]; cbn in *; [|reflexivity].
  destruct Hm as [cells ->].
  destruct (find_entry kq cells) as [id|].
  - unfold read_payload_unused, ret. cbn. destruct (pay !! id); reflexivity.
  - unfold write_index, write_payload, ret. cbn.
    rewrite length_app, Nat.add_sub. reflexivity.
Qed.

(** [retrieve], case by case. *)
Lemma retrieve_cases query d kq :
  _serialize_content query = Ok kq ->
  index_modelled d ->
  retrieve query d =
    match find_entry kq (index_of d) with
    | Some entry_id =>
        match payload_files d !! entry_id with
        | Some rows =>
            match read_csv rows with
            | Ok result_df =>
                match first_value result_df with
                | Ok value =>
                    match _deserialize_content value with
                    | Ok answer => (Ok (Some answer), d)
                    | Raise e => (Raise e, d)
                    end
                | Raise e => (Raise e, d)
                end
            | Raise e => (Raise e, d)
            end
        | None => (Raise FileNotFoundError, d)
        end
    | None => (Ok None, d)
    end.
Proof.
  intros Hq Hm. unfold retrieve, bind, lift. rewrite Hq.
  unfold index_exists, read_index, index_of, index_modelled in *.
  destruct d as [[rows|] pay lg]; cbn in *; [|reflexivity].
  destruct Hm as [cells ->].
  destruct (find_entry kq cells) as [id|]; [|reflexivity].
  unfold read_payload, ret. cbn. destruct (pay !! id) as [rs|]; [|reflexivity].
  destruct (read_csv rs) as [df|]; [|reflexivity].
  destruct (first_value df) as [v|]; [|reflexivity].
  destruct (_deserialize_content v); reflexivity.
Qed.

(** [remove], case by case. *)
Lemma remove_cases query d kq :
  _serialize_content query = Ok kq ->
  index_modelled d ->
  remove query d =
    match find_entry kq (index_of d) with
    | Some entry_id =>
        (Ok tt,
         mkDisk (Some (map to_csv_cell (drop_row entry_id (index_of d))))
           (delete entry_id (payload_files d)) (log d))
    | None => (Ok tt, d)
    end.
Proof.
  intros Hq Hm. unfold remove, bind, lift. rewrite Hq.
  unfold index_exists, read_index, index_of, index_modelled in *.
  destruct d as [[rows|] pay lg]; cbn in *; [|reflexivity].
  destruct Hm as [cells ->].
  destruct (find_entry kq cells) as [id|]; reflexivity.
Qed.

(** [contains], case by case. *)
Lemma contains_cases query d kq :
  _serialize_content query = Ok kq ->
  index_modelled d ->
  contains query d =
    match find_entry kq (index_of d) with
    | Some _ => (Ok true, mkDisk (index_file d) (payload_files d) (log d ++ ["Cache hit!"%string]))
    | None => (Ok false, mkDisk (index_file d) (payload_files d) (log d ++ ["Cache miss!"%string]))
    end.
Proof.
  intros Hq Hm. unfold contains, bind, lift. rewrite Hq.
  unfold index_exists, read_index, index_of, index_modelled in *.
  destruct d as [[rows|] pay lg]; cbn in *; [|reflexivity].
  destruct Hm as [cells ->].
  destruct (find_entry kq cells) as [id|]; reflexivity.
Qed.

(** The index of a directory whose index file holds a table of text. *)
Lemma index_of_text d rows :
  index_file d = Some rows -> text_table rows ->
  index_of d = map as_text rows /\ index_modelled d.
Proof.
  intros Hi Ht. unfold index_of, index_modelled. rewrite Hi, (read_csv_text _ Ht). eauto.
Qed.

(** A new text key at the end of a table of text. *)
Lemma text_table_snoc rows key :
  text_table rows -> read_as_text key -> text_table (rows ++ [key]).
Proof.
  intros Ht Hk. apply Forall_app. split; [exact Ht|].
  constructor; [now right|constructor].
Qed.

(** [store] answers true only on a query that the index does not hold. *)
Lemma store_true_inv query result d d' :
  index_modelled d ->
  store query result d = (Ok true, d') ->
  exists kq ka,
    _serialize_content query = Ok kq /\ _serialize_content result = Ok ka
    /\ find_entry kq (index_of d) = None
    /\ d' = mkDisk (Some (map to_csv_cell (index_of d ++ [CStr kq])))
              (<[length (index_of d) := [ka]]> (payload_files d)) (log d).
Proof.
  intros Hm.
  destruct (_serialize_content query) as [kq|] eqn:Hq;
    [|unfold store, bind, lift; rewrite Hq; discriminate].
  destruct (_serialize_content result) as [ka|] eqn:Ha;
    [|unfold store, bind, lift; rewrite Hq, Ha; discriminate].
  rewrite (store_cases _ _ _ _ _ Hq Ha Hm).
  destruct (find_entry kq (index_of d)) as [id|] eqn:Hf.
  - destruct (payload_files d !! id); discriminate.
  - intros [= <-]. exists kq, ka. auto.
Qed.

(** The directory after a new text key was stored in a table of text. *)
Lemma store_text d rows query result kq ka :
  index_file d = Some rows -> text_table rows ->
  _serialize_content query = Ok kq -> read_as_text kq ->
  _serialize_content result = Ok ka ->
  ~ In kq rows ->
  store query result d
    = (Ok true, mkDisk (Some (rows ++ [kq])) (<[length rows := [ka]]> (payload_files d)) (log d)).
Proof.
  intros Hi Ht Hq Hkq Ha Hnin.
  destruct (index_of_text _ _ Hi Ht) as [Hidx Hm].
  rewrite (store_cases _ _ _ _ _ Hq Ha Hm), Hidx.
  pose proof (find_entry_text kq rows (proj2 (plain_kind _ Hkq))) as Hf.
  destruct (find_entry kq (map as_text rows)) as [i|].
  - destruct Hf as [Hl _]. exfalso. apply Hnin. eapply list_elem_of_In, list_elem_of_lookup_2, Hl.
  - rewrite map_app, rewrite_rows, length_map. reflexivity.
Qed.

(** A stored answer is retrieved as it was given, provided the reader hands
    both encoded fields back as text and the index is a table of text. *)
Lemma store_then_retrieve query result d d' rows kq ka :
  index_file d = Some rows -> text_table rows ->
  store query result d = (Ok true, d') ->
  _serialize_content query = Ok kq -> read_as_text kq ->
  _serialize_content result = Ok ka -> read_as_text ka ->
  retrieve query d' = (Ok (Some (str_of result)), d').
Proof.
  intros Hi Ht Hs Hq Hkq Ha Hka.
  destruct (index_of_text _ _ Hi Ht) as [Hidx Hm].
  assert (Hnin : ~ In kq rows).
  { destruct (store_true_inv _ _ _ _ Hm Hs) as (kq' & ka' & Hq' & _ & Hf & _).
    rewrite Hq in Hq'. injection Hq' as <-. rewrite Hidx in Hf.
    pose proof (find_entry_text kq rows (proj2 (plain_kind _ Hkq))) as Hf'.
    now rewrite Hf in Hf'. }
  rewrite (store_text _ _ _ _ _ _ Hi Ht Hq Hkq Ha Hnin) in Hs. injection Hs as <-.
  destruct (index_of_text
              (mkDisk (Some (rows ++ [kq])) (<[length rows := [ka]]> (payload_files d)) (log d))
              (rows ++ [kq]) eq_refl (text_table_snoc _ _ Ht Hkq)) as [Hidx' Hm'].
  rewrite (retrieve_cases _ _ _ Hq Hm'), Hidx', map_app. cbn [map].
  rewrite (as_text_plain _ Hkq).
  assert (Hnone : find_entry kq (map as_text rows) = None).
  { pose proof (find_entry_text kq rows (proj2 (plain_kind _ Hkq))) as Hf.
    destruct (find_entry kq (map as_text rows)) as [i|]; [|reflexivity].
    destruct Hf as [Hl _]. exfalso. apply Hnin.
    eapply list_elem_of_In, list_elem_of_lookup_2, Hl. }
  rewrite (find_entry_app_new _ _ Hnone), length_map.
  cbn [payload_files]. rewrite lookup_insert_eq.
  rewrite (read_csv_text [ka]) by (constructor; [now right|constructor]).
  cbn [map first_value]. rewrite (as_text_plain _ Hka), (deserialize_serialize _ _ Ha).
  reflexivity.
Qed.

(** A second [store] of the same query answers false and leaves the
    directory as it is, provided the reader hands the encoded query back as
    text and the index is a table of text. *)
Lemma store_twice query r1 r2 d d' rows kq k2 :
  index_file d = Some rows -> text_table rows ->
  store query r1 d = (Ok true, d') ->
  _serialize_content query = Ok kq -> read_as_text kq ->
  _serialize_content r2 = Ok k2 ->
  store query r2 d' = (Ok false, d').
Proof.
  intros Hi Ht Hs Hq Hkq H2.
  destruct (index_of_text _ _ Hi Ht) as [Hidx Hm].
  destruct (store_true_inv _ _ _ _ Hm Hs) as (kq' & ka & Hq' & Ha & Hf & _).
  rewrite Hq in Hq'. injection Hq' as <-. rewrite Hidx in Hf.
  assert (Hnin : ~ In kq rows).
  { pose proof (find_entry_text kq rows (proj2 (plain_kind _ Hkq))) as Hf'.
    now rewrite Hf in Hf'. }
  rewrite (store_text _ _ _ _ _ _ Hi Ht Hq Hkq Ha Hnin) in Hs. injection Hs as <-.
  destruct (index_of_text
              (mkDisk (Some (rows ++ [kq])) (<[length rows := [ka]]> (payload_files d)) (log d))
              (rows ++ [kq]) eq_refl (text_table_snoc _ _ Ht Hkq)) as [Hidx' Hm'].
  rewrite (store_cases _ _ _ _ _ Hq H2 Hm'), Hidx', map_app. cbn [map].
  rewrite (as_text_plain _ Hkq), (find_entry_app_new _ _ Hf), length_map.
  cbn [payload_files]. now rewrite lookup_insert_eq.
Qed.


(** C3.  Two queries are stored and the first one is removed: the index
    still holds the second query, but its row is now row 0 and the payload
    file of row 0 is gone, so [retrieve] raises.  With a third query stored,
    [retrieve] of the third returns the answer of the second. *)
Theorem remove_shifts_rows :
  let d2 := exec (store q2 a2) (exec (store q1 a1) empty_store) in
  let d3 := exec (store q3 a3) d2 in
  outcome (store q1 a1) empty_store = Ok true
  /\ outcome (store q2 a2) (exec (store q1 a1) empty_store) = Ok true
  /\ outcome (retrieve q2) d2 = Ok (Some (py "a2"))
  /\ outcome (remove q1) d2 = Ok tt
  /\ outcome (contains q2) (exec (remove q1) d2) = Ok true
  /\ outcome (retrieve q2) (exec (remove q1) d2) = Raise FileNotFoundError
  /\ outcome (store q3 a3) d2 = Ok true
  /\ outcome (retrieve q3) d3 = Ok (Some (py "a3"))
  /\ outcome (retrieve q3) (exec (remove q1) d3) = Ok (Some (py "a2")).
Proof.
  cbv zeta. repeat split; vm_compute; reflexivity.
Qed.

(** C4.  The empty answer is stored, and [retrieve] raises instead of
    returning it: the reader hands the empty field back as [nan], which has
    no [encode]. *)
Theorem retrieve_empty_answer_raises :
  outcome (store q1 empty_text) empty_store = Ok true
  /\ outcome (retrieve q1) (exec (store q1 empty_text) empty_store)
     = Raise (AttributeError "encode").
Proof.
  split; vm_compute; reflexivity.
Qed.

(** C5.  The empty query is stored twice: the second [store] answers true
    as well, and adds a second row and a second payload file. *)
Theorem store_empty_query_twice :
  let d1 := exec (store empty_text a1) empty_store in
  let d2 := exec (store empty_text a2) d1 in
  outcome (store empty_text a1) empty_store = Ok true
  /\ outcome (store empty_text a2) d1 = Ok true
  /\ d2 <> d1
  /\ index_file d1 = Some [[]]
  /\ index_file d2 = Some [[]; []]
  /\ payload_files d2 !! 1%nat = Some [py "YTI="]
  /\ outcome (retrieve empty_text) d1 = Ok None.
Proof.
  cbv zeta. repeat split; try (vm_compute; reflexivity).
  intros H. apply (f_equal index_file) in H. vm_compute in H. discriminate.
Qed.

(** C8.  An index row without its payload file: the index holds the query
    ([contains] answers true), the payload file of its row is missing, and
    [retrieve] does not return [None]: it raises [FileNotFoundError] to the
    caller, and logs nothing.  [remove] on the same directory guards the
    same file and returns normally. *)
Theorem retrieve_orphan_row_raises :
  outcome (contains q1) orphan_index = Ok true
  /\ payload_files orphan_index !! 0%nat = None
  /\ outcome (retrieve q1) orphan_index <> Ok None
  /\ outcome (retrieve q1) orphan_index = Raise FileNotFoundError
  /\ exec (retrieve q1) orphan_index = orphan_index
  /\ outcome (remove q1) orphan_index = Ok tt.
Proof.
  repeat split; try (vm_compute; reflexivity).
  vm_compute. discriminate.
Qed.

End FileBasedStoreProperties.

(** ** The branch life cycle *)

Section GitManagerProperties.

Import GitManager.

(** [_should_remove_branch] on an initialised manager and a listed branch:
    the name must not hold the current revision id and the author of the
    newest commit must be the author asked for. *)
Lemma should_remove_branch_spec s r branch author id e :
  _source_tree s = Some r ->
  List.find (fun e => bool_decide (e.1 = branch)) (branches r) = Some e ->
  _should_remove_branch branch author id s
    = (Ok (negb (str_in id branch)
           && match e.2 with
              | last_commit :: _ => bool_decide (author_name last_commit = author)
              | [] => false
              end), s).
Proof.
  intros Hs Hf. unfold _should_remove_branch.
  destruct (str_in id branch); [reflexivity|].
  unfold bind, _retrieve_changesets, guard_initialized, bind. rewrite Hs, Hf.
  unfold ret. destruct e.2 as [|c cs]; [reflexivity|].
  simpl. destruct (bool_decide _); reflexivity.
Qed.

(** C1.  [initialize] on the sample remote: the branch the bot left for an
    older revision stays, and the branch whose newest commit is by "Timo"
    is deleted.  The author cleanup compares with is "Timo", not the bot
    identity the same method configures. *)
Theorem initialize_cleanup_author :
  outcome initialize fresh_manager = Ok true
  /\ deleted (exec initialize fresh_manager) = [py "tech-debt-bot-T2-2222222"]
  /\ In stale_bot_branch (listed (exec initialize fresh_manager))
  /\ ~ In stale_human_branch (listed (exec initialize fresh_manager))
  /\ outcome (_should_remove_branch stale_bot_branch bot_name (py "0a1b2c3"))
       (exec initialize fresh_manager) = Ok true
  /\ py "Timo" <> bot_name.
Proof.
  repeat split; try (vm_compute; reflexivity).
  - vm_compute. tauto.
  - vm_compute. intuition discriminate.
  - vm_compute. discriminate.
Qed.

(** C7.  On a manager that is not initialised, [create_feature_branch],
    [stage_and_record] and [create_merge_request] raise the guard error;
    [publish_and_verify_remote] has no guard and raises [AttributeError]
    from its first attribute access. *)
Theorem uninitialized_calls s identifier message title body base :
  _source_tree s = None ->
  create_feature_branch identifier s = (Raise NotInitialized, s)
  /\ stage_and_record message s = (Raise NotInitialized, s)
  /\ create_merge_request title body base s = (Raise NotInitialized, s)
  /\ publish_and_verify_remote s
     = (Raise (AttributeError "active_branch"), s)
  /\ outcome publish_and_verify_remote s <> Raise NotInitialized.
Proof.
  intros Hs.
  assert (Hg : guard_initialized s = (Raise NotInitialized, s))
    by (unfold guard_initialized; now rewrite Hs).
  assert (Hp : publish_and_verify_remote s
     = (Raise (AttributeError "active_branch"), s)).
  { unfold publish_and_verify_remote, bind, source_tree_attr. now rewrite Hs. }
  repeat split.
  - unfold create_feature_branch, bind. now rewrite Hg.
  - unfold stage_and_record, bind. now rewrite Hg.
  - unfold create_merge_request, bind. now rewrite Hg.
  - exact Hp.
  - unfold outcome. rewrite Hp. discriminate.
Qed.

End GitManagerProperties.

(** A manager that was constructed and never initialised. *)
Lemma uninitialized_calls_witness :
  GitManager.publish_and_verify_remote fresh_manager
  = (Raise (AttributeError "active_branch"), fresh_manager).
Proof.
  exact (proj1 (proj2 (proj2 (proj2
    (uninitialized_calls fresh_manager [] [] [] [] [] eq_refl))))).
Defined.

(** * Further properties *)

(** ** The text-range editor, continued *)

Section EditorExtras.

Import CodeFileManager.

Variable self : t.

Lemma get_code_segment_unfold path lr rel w text :
  fs w !! resolve self path rel = Some text ->
  get_code_segment self path lr rel w =
    let file_lines := keepends (universal_newlines text) in
    match _normalize_line_range lr (len file_lines) 0 with
    | Ok (s, e) => (Ok (concat (py_slice file_lines (s - 1) e)), w)
    | Raise x => (Raise x, w)
    end.
Proof.
  intros Hf. unfold get_code_segment, try_except, bind, readlines, lift.
  rewrite (stat_key _ _ _ Hf). cbn zeta.
  destruct (_normalize_line_range lr _ 0) as [[s e]|x] eqn:Hn; [reflexivity|].
  now rewrite (normalize_error _ _ _ Hn).
Qed.


(** X1.  After a replacement with a text that UTF-8 can encode and that holds
    no carriage return, the file is read back as the lines before the range,
    the lines of the substituted block, and the lines after the range; the
    line count changes by the number of lines of the text (the agent's
    [inserted_lines]) minus the length of the range. *)
Theorem update_code_segment_readback path lr code rel w text s e :
  fs w !! resolve self path rel = Some text ->
  let file_lines := keepends (universal_newlines text) in
  _normalize_line_range lr (len file_lines) 0 = Ok (s, e) ->
  1 <= s <= e /\ e <= len file_lines ->
  encodable code ->
  ~ In CR code ->
  let block := reindent file_lines s e code in
  let w' := exec (update_code_segment self path lr code rel) w in
  let new_lines :=
    take (Z.to_nat (s - 1)) file_lines
    ++ map (fun l => l ++ [LF]) (split_on LF block)
    ++ drop (Z.to_nat e) file_lines in
  readlines (resolve self path rel) w' = (Ok new_lines, w')
  /\ len new_lines
     = len file_lines - (e - s + 1) + SonarAgent.inserted_lines code.
Proof.
  intros Hf file_lines Hn Hb _ Hcr block w' new_lines. split.
  - exact (update_readlines self path lr code rel w text s e Hf Hn Hb Hcr).
  - exact (readback_length file_lines s e code Hb).
Qed.

(** X2.  Reading the lines that a replacement has just put in place returns the
    substituted block, ended by its newline (for a replacement text that
    UTF-8 can encode and that holds no carriage return). *)
Theorem get_code_segment_after_update path lr code rel w text s e :
  fs w !! resolve self path rel = Some text ->
  let file_lines := keepends (universal_newlines text) in
  _normalize_line_range lr (len file_lines) 0 = Ok (s, e) ->
  1 <= s <= e /\ e <= len file_lines ->
  encodable code ->
  ~ In CR code ->
  let w' := exec (update_code_segment self path lr code rel) w in
  get_code_segment self path
    (LTuple [s; s + SonarAgent.inserted_lines code - 1]) rel w'
  = (Ok (reindent file_lines s e code ++ [LF]), w').
Proof.
  intros Hf file_lines Hn Hb _ Hcr w'.
  pose proof (update_readlines self path lr code rel w text s e Hf Hn Hb Hcr) as Hr.
  pose proof (readback_length file_lines s e code Hb) as Hl.
  fold file_lines w' in Hr, Hl. cbv zeta in Hr, Hl.
  set (block := reindent file_lines s e code) in *.
  set (M := map (fun l => l ++ [LF]) (split_on LF block)) in *.
  set (k := SonarAgent.inserted_lines code) in *.
  assert (Hk : len M = k).
  { unfold M, k, SonarAgent.inserted_lines, len. rewrite length_map.
    unfold block. now rewrite reindent_line_count. }
  assert (Hk1 : 1 <= k).
  { unfold k, SonarAgent.inserted_lines, len.
    pose proof (split_on_nonempty LF code). destruct (split_on LF code); [congruence|].
    simpl. lia. }
  unfold get_code_segment, try_except, bind, lift. rewrite Hr.
  cbn [_normalize_line_range]. rewrite Hl.
  replace (Z.max 1 (s - 0)) with s by lia.
  replace (Z.min (len file_lines - (e - s + 1) + k) (s + k - 1 + 0))
    with (s + k - 1) by lia.
  unfold ret. do 2 f_equal.
  rewrite py_slice_in_bounds by (rewrite Hl; lia).
  replace (Z.to_nat (s + k - 1 - s + 1)) with (length M) by (unfold len in Hk; lia).
  rewrite drop_app_length' by (rewrite length_take; unfold len in Hb; lia).
  rewrite take_app_length. unfold M. apply concat_split_block.
Qed.

(** X3.  [update_code_segment] changes at most the one file its path names
    (files are told apart by the key they are filed under, the path in
    normal form): every other file keeps its text, no file appears and none
    disappears, whatever the arguments and however the call ends; when the
    path names no file, no file changes at all. *)
Theorem update_code_segment_frame path lr code rel w :
  let w' := exec (update_code_segment self path lr code rel) w in
  dom (fs w') = dom (fs w)
  /\ (forall key text, stat (fs w) (resolve self path rel) = IsFile key text ->
      forall other, other <> key -> fs w' !! other = fs w !! other)
  /\ ((forall key text, stat (fs w) (resolve self path rel) <> IsFile key text) ->
      fs w' = fs w).
Proof.
  intros w'.
  assert (Hno : (forall key text, stat (fs w) (resolve self path rel) <> IsFile key text) ->
                fs w' = fs w).
  { intros Hf. unfold w', exec. rewrite (update_unfold_no_file _ _ _ _ _ _ Hf).
    destruct (open_error _); reflexivity. }
  assert (Hfile : forall key text,
            stat (fs w) (resolve self path rel) = IsFile key text ->
            fs w' = fs w \/ exists new, fs w' = <[key := new]> (fs w)).
  { intros key text Hf. unfold w', exec. rewrite (update_unfold_file _ _ _ _ _ _ _ _ Hf).
    cbn zeta. destruct (_normalize_line_range lr _ 0) as [[s e]|x]; [|now left].
    destruct (substitute lr _ s e _) as [ls|x]; [|now left].
    right. eexists. reflexivity. }
  split; [|split; [|exact Hno]].
  - destruct (stat (fs w) (resolve self path rel)) as [k t'| |k| | | |] eqn:Hst;
      try (rewrite Hno; [reflexivity|intros ? ?; discriminate]).
    destruct (Hfile k t' eq_refl) as [->|[new ->]]; [reflexivity|].
    apply stat_file in Hst. rewrite dom_insert_L.
    apply elem_of_dom_2 in Hst.
    now apply subseteq_union_1_L, singleton_subseteq_l.
  - intros key text Hf other Hne.
    destruct (Hfile key text Hf) as [->|[new ->]]; [reflexivity|].
    now rewrite lookup_insert_ne.
Qed.

(** X4.  A range that is neither an [int] nor a pair of ints: on an existing file
    both the read and the write raise the shape error and change nothing. *)
Theorem malformed_range_raises path lr code rel w text :
  fs w !! resolve self path rel = Some text ->
  well_shaped lr = false ->
  get_code_segment self path lr rel w = (Raise InvalidRangeShape, w)
  /\ update_code_segment self path lr code rel w = (Raise InvalidRangeShape, w).
Proof.
  intros Hf Hs.
  rewrite (get_code_segment_unfold _ _ _ _ _ Hf), (update_unfold _ _ _ _ _ _ _ Hf).
  destruct lr as [r|[|a [|b [|c items]]]|]; try discriminate; auto.
Qed.

(** X5.  Reading with an upper bound that is not negative: the range is clamped
    to the file and the lines [max(1, a) .. min(n, b)] are returned with
    their terminators; when the clamped range is empty the result is the
    empty string.  Nothing is raised and nothing changes.  An [int] [r] reads
    as the pair [(r, r)]. *)
Theorem get_code_segment_clamps path lr rel w text a b :
  fs w !! resolve self path rel = Some text ->
  lr = LTuple [a; b] \/ (lr = LInt a /\ b = a) ->
  0 <= b ->
  let file_lines := keepends (universal_newlines text) in
  let first := Z.max 1 a in
  let last := Z.min (len file_lines) b in
  get_code_segment self path lr rel w
    = (Ok (concat (lines_from_to file_lines first last)), w)
  /\ (last < first -> get_code_segment self path lr rel w = (Ok [], w)).
Proof.
  intros Hf Hlr Hb file_lines first last.
  assert (E : get_code_segment self path lr rel w
              = (Ok (concat (lines_from_to file_lines first last)), w)).
  { rewrite (get_code_segment_unfold _ _ _ _ _ Hf). cbn zeta. fold file_lines.
    assert (Hn : _normalize_line_range lr (len file_lines) 0 = Ok (first, last)).
    { destruct Hlr as [->|[-> ->]]; simpl; unfold first, last; do 2 f_equal; lia. }
    rewrite Hn. do 2 f_equal.
    unfold py_slice, lines_from_to, slice_bound.
    destruct (first - 1 <? 0) eqn:E1; [apply Z.ltb_lt in E1; lia|].
    destruct (last <? 0) eqn:E2; [apply Z.ltb_lt in E2; unfold len in *; lia|].
    destruct (Z.le_gt_cases (first - 1) (len file_lines)) as [H|H].
    - rewrite (Nat.min_l (Z.to_nat (first - 1))) by (unfold len in H; lia).
      do 2 f_equal. unfold first, last, len in *. lia.
    - rewrite (Nat.min_r (Z.to_nat (first - 1))) by (unfold len in H; lia).
      rewrite !drop_ge by (unfold len in H; lia). now rewrite !take_nil. }
  split; [exact E|]. intros Hlt. rewrite E. unfold lines_from_to.
  replace (Z.to_nat (last - first + 1)) with 0%nat by lia. reflexivity.
Qed.

(** X6.  Reading with a negative upper bound: the bound counts from the end of
    the file, as a negative slice index does; the lines
    [max(1, a) .. n + b] are returned. *)
Theorem get_code_segment_negative_end path lr rel w text a b :
  fs w !! resolve self path rel = Some text ->
  lr = LTuple [a; b] \/ (lr = LInt a /\ b = a) ->
  b < 0 ->
  let file_lines := keepends (universal_newlines text) in
  get_code_segment self path lr rel w
    = (Ok (concat (lines_from_to file_lines (Z.max 1 a) (len file_lines + b))), w).
Proof.
  intros Hf Hlr Hb file_lines.
  rewrite (get_code_segment_unfold _ _ _ _ _ Hf). cbn zeta. fold file_lines.
  assert (Hn : _normalize_line_range lr (len file_lines) 0 = Ok (Z.max 1 a, b)).
  { destruct Hlr as [->|[-> ->]]; simpl; do 2 f_equal; unfold len; lia. }
  rewrite Hn. do 2 f_equal.
  unfold py_slice, lines_from_to, slice_bound.
  destruct (Z.max 1 a - 1 <? 0) eqn:E1; [apply Z.ltb_lt in E1; lia|].
  apply Z.ltb_lt in Hb. rewrite Hb. apply Z.ltb_lt in Hb.
  destruct (Z.le_gt_cases (Z.max 1 a - 1) (len file_lines)) as [H|H].
  - rewrite (Nat.min_l (Z.to_nat (Z.max 1 a - 1))) by (unfold len in H; lia).
    do 2 f_equal. unfold len. lia.
  - rewrite (Nat.min_r (Z.to_nat (Z.max 1 a - 1))) by (unfold len in H; lia).
    rewrite !drop_ge by (unfold len in H; lia). now rewrite !take_nil.
Qed.


End EditorExtras.

Section EditorExtras2.

Import CodeFileManager.

Variable self : t.

(** X8.  [_apply_indent] puts the indentation in front of every line of the
    code and changes nothing else; a count of zero or less adds nothing. *)
Theorem apply_indent_lines code n :
  split_on LF (_apply_indent code n)
    = map (fun line => spaces n ++ line) (split_on LF code)
  /\ (n <= 0 -> _apply_indent code n = code).
Proof.
  split; [apply split_apply_indent|].
  intros Hn. unfold _apply_indent, spaces.
  replace (Z.to_nat n) with 0%nat by lia. simpl.
  rewrite map_id. apply join_split.
Qed.

Lemma split_on_first sep pre rest :
  ~ In sep pre -> split_on sep (pre ++ sep :: rest) = pre :: split_on sep rest.
Proof.
  intros Hn. rewrite split_on_app_no_sep by assumption.
  simpl. rewrite N.eqb_refl. now rewrite app_nil_r.
Qed.

Lemma scan_project_key_first before line after :
  Forall (fun l => str_in (py "sonar.projectKey") l = false) before ->
  str_in (py "sonar.projectKey") line = true ->
  scan_project_key (before ++ line :: after)
    = match split_on 61 line with
      | _ :: value :: _ => Ok (strip value)
      | _ => Raise IndexError
      end.
Proof.
  induction 1 as [|l ls Hl _ IH]; intros Hline.
  - cbn [app scan_project_key]. now rewrite Hline.
  - cbn [app scan_project_key]. rewrite Hl. auto.
Qed.


Lemma locate_unfold target_dir w text :
  fs w !! os_path_join target_dir (py "sonar-project.properties") = Some text ->
  locate_sonar_key self target_dir w
    = (scan_project_key (keepends (universal_newlines text)), w).
Proof.
  intros Hf. unfold locate_sonar_key, try_except, bind, readlines, lift.
  rewrite (stat_key _ _ _ Hf). destruct (scan_project_key _) as [v|x] eqn:E; [reflexivity|].
  assert (x = IndexError) as ->; [|reflexivity].
  revert E. generalize (keepends (universal_newlines text)) as ls.
  induction ls as [|l ls IH]; simpl; [discriminate|].
  destruct (str_in _ l); [|exact IH].
  destruct (split_on 61 l) as [|? [|? ?]]; congruence.
Qed.

(** X9.  The first line that mentions [sonar.projectKey] decides the result: it
    is what stands between the first ["="] of that line and the next one (or
    the end of the line), with the white space around it removed.  Later
    lines are not looked at. *)
Theorem locate_sonar_key_value target_dir w text before line after pre rest :
  fs w !! os_path_join target_dir (py "sonar-project.properties") = Some text ->
  keepends (universal_newlines text) = before ++ line :: after ->
  Forall (fun l => str_in (py "sonar.projectKey") l = false) before ->
  str_in (py "sonar.projectKey") line = true ->
  line = pre ++ 61%N :: rest -> ~ In 61%N pre ->
  locate_sonar_key self target_dir w
    = (Ok (strip (hd [] (split_on 61 rest))), w).
Proof.
  intros Hf Hl Hb Hline -> Hpre.
  rewrite (locate_unfold _ _ _ Hf), Hl, (scan_project_key_first _ _ _ Hb Hline).
  rewrite split_on_first by assumption.
  pose proof (split_on_nonempty 61 rest).
  destruct (split_on 61 rest); [congruence|reflexivity].
Qed.

(** X10.  When the first line that mentions [sonar.projectKey] holds no ["="] (a
    comment, say), [locate_sonar_key] raises [IndexError]: only the missing
    file is caught. *)
Theorem locate_sonar_key_no_equals target_dir w text before line after :
  fs w !! os_path_join target_dir (py "sonar-project.properties") = Some text ->
  keepends (universal_newlines text) = before ++ line :: after ->
  Forall (fun l => str_in (py "sonar.projectKey") l = false) before ->
  str_in (py "sonar.projectKey") line = true ->
  ~ In 61%N line ->
  locate_sonar_key self target_dir w = (Raise IndexError, w).
Proof.
  intros Hf Hl Hb Hline Hno.
  rewrite (locate_unfold _ _ _ Hf), Hl, (scan_project_key_first _ _ _ Hb Hline).
  now rewrite split_on_single.
Qed.


End EditorExtras2.

Section EditorExtrasExamples.

Import CodeFileManager.

Local Ltac not_in := vm_compute; intuition discriminate.

(** Lines 3 to 5 of [foo.py] replaced by two lines: nine lines are read
    back. *)
Lemma update_code_segment_readback_witness :
  len (keepends (universal_newlines foo_py)) = 10
  /\ fst (readlines (resolve sample_manager (py "foo.py") true)
       (exec (update_code_segment sample_manager (py "foo.py") (LTuple [3; 5])
                two_lines true) sample_world))
     = Ok (keepends foo_py_after)
  /\ len (keepends foo_py_after) = 9.
Proof.
  pose proof (update_code_segment_readback sample_manager (py "foo.py")
    (LTuple [3; 5]) two_lines true sample_world foo_py 3 5
    ltac:(vm_compute; reflexivity) ltac:(vm_compute; reflexivity)
    ltac:(vm_compute; intuition discriminate) ltac:(vm_compute; eauto)
    ltac:(not_in)) as [Hr _].
  split; [vm_compute; reflexivity|]. split; [|vm_compute; reflexivity].
  cbv zeta in Hr. rewrite Hr. vm_compute. reflexivity.
Defined.

Lemma get_code_segment_after_update_witness :
  get_code_segment sample_manager (py "foo.py") (LTuple [3; 4]) true
    (exec (update_code_segment sample_manager (py "foo.py") (LTuple [3; 5])
             two_lines true) sample_world)
  = (Ok (py "    x = 1
    y = 2
"),
     exec (update_code_segment sample_manager (py "foo.py") (LTuple [3; 5])
             two_lines true) sample_world).
Proof.
  exact (get_code_segment_after_update sample_manager (py "foo.py")
    (LTuple [3; 5]) two_lines true sample_world foo_py 3 5
    ltac:(vm_compute; reflexivity) ltac:(vm_compute; reflexivity)
    ltac:(vm_compute; intuition discriminate) ltac:(vm_compute; eauto)
    ltac:(not_in)).
Defined.

(** Replacing a line of [foo.py] leaves the properties file beside it as
    it is. *)
Lemma update_code_segment_frame_witness :
  fs (exec (update_code_segment sample_manager (py "./foo.py") (LInt 1) (py "x") true)
        two_files_world) !! py "repo/sonar-project.properties"
  = Some sonar_properties.
Proof.
  refine (eq_trans (proj1 (proj2 (update_code_segment_frame sample_manager
    (py "./foo.py") (LInt 1) (py "x") true two_files_world))
    (py "repo/foo.py") foo_py _ (py "repo/sonar-project.properties") _) _).
  - vm_compute. reflexivity.
  - vm_compute. discriminate.
  - vm_compute. reflexivity.
Defined.

Lemma malformed_range_raises_witness :
  update_code_segment sample_manager (py "foo.py") (LTuple [1; 2; 3]) (py "x") true
    sample_world = (Raise InvalidRangeShape, sample_world).
Proof.
  refine (proj2 (malformed_range_raises sample_manager (py "foo.py")
    (LTuple [1; 2; 3]) (py "x") true sample_world foo_py _ _));
    vm_compute; reflexivity.
Defined.

(** Lines 9 to 12 of the ten lines: the last two are returned. *)
Lemma get_code_segment_clamps_witness :
  get_code_segment sample_manager (py "foo.py") (LTuple [9; 12]) true sample_world
  = (Ok (py "i = 7
j = 8
"), sample_world).
Proof.
  refine (eq_trans (proj1 (get_code_segment_clamps sample_manager (py "foo.py")
    (LTuple [9; 12]) true sample_world foo_py 9 12 _ _ _)) _).
  - vm_compute. reflexivity.
  - left. reflexivity.
  - lia.
  - vm_compute. reflexivity.
Defined.

(** The range [(9, -1)] of the ten lines: line 9 alone. *)
Lemma get_code_segment_negative_end_witness :
  get_code_segment sample_manager (py "foo.py") (LTuple [9; -1]) true sample_world
  = (Ok (py "i = 7
"), sample_world).
Proof.
  refine (eq_trans (get_code_segment_negative_end sample_manager (py "foo.py")
    (LTuple [9; -1]) true sample_world foo_py 9 (-1) _ _ _) _).
  - vm_compute. reflexivity.
  - left. reflexivity.
  - lia.
  - vm_compute. reflexivity.
Defined.


Lemma locate_sonar_key_value_witness :
  locate_sonar_key sample_manager (py "repo") sonar_world
  = (Ok (py "my-project"), sonar_world).
Proof.
  refine (eq_trans (locate_sonar_key_value sample_manager (py "repo") sonar_world
    sonar_properties [py "# project settings
"] (py "sonar.projectKey = my-project
") [py "sonar.sources=.
"] (py "sonar.projectKey ") (py " my-project
") _ _ _ _ _ _) _).
  - vm_compute. reflexivity.
  - vm_compute. reflexivity.
  - repeat constructor.
  - vm_compute. reflexivity.
  - reflexivity.
  - not_in.
  - vm_compute. reflexivity.
Defined.

Lemma locate_sonar_key_no_equals_witness :
  locate_sonar_key sample_manager (py "repo") sonar_commented_world
  = (Raise IndexError, sonar_commented_world).
Proof.
  refine (locate_sonar_key_no_equals sample_manager (py "repo") sonar_commented_world
    sonar_commented [] (py "# sonar.projectKey goes below
") [py "sonar.projectKey=my-project
"] _ _ _ _ _).
  - vm_compute. reflexivity.
  - vm_compute. reflexivity.
  - constructor.
  - vm_compute. reflexivity.
  - not_in.
Defined.

End EditorExtrasExamples.


(** ** The cache, continued *)

Section CodecExtras.

Import FileBasedStore.

Local Ltac Zify.zify_post_hook ::= Z.to_euclidean_division_equations.

Lemma utf8_encode_char_none c : utf8_encode_char c = None <-> unencodable c.
Proof.
  unfold utf8_encode_char, unencodable.
  destruct (c <? 128)%N eqn:E1; [apply N.ltb_lt in E1; split; [discriminate|lia]|].
  destruct (c <? 2048)%N eqn:E2; [apply N.ltb_lt in E2; split; [discriminate|lia]|].
  apply N.ltb_ge in E1, E2.
  destruct (c <? 65536)%N eqn:E3.
  - apply N.ltb_lt in E3.
    destruct ((55296 <=? c) && (c <=? 57343))%N eqn:Es.
    + apply andb_true_iff in Es as [H1 H2]. apply N.leb_le in H1, H2.
      split; [left; lia|reflexivity].
    + apply andb_false_iff in Es. split; [discriminate|].
      rewrite !N.leb_gt in Es. lia.
  - apply N.ltb_ge in E3. destruct (c <? 1114112)%N eqn:E4.
    + apply N.ltb_lt in E4. split; [discriminate|lia].
    + apply N.ltb_ge in E4. split; [right; lia|reflexivity].
Qed.

Lemma utf8_encode_none s : utf8_encode s = None <-> Exists unencodable s.
Proof.
  induction s as [|c s IH]; simpl.
  - split; [discriminate|]. intros H. inversion H.
  - rewrite Exists_cons, <- IH, <- utf8_encode_char_none.
    destruct (utf8_encode_char c), (utf8_encode s); split;
      try discriminate; try tauto; intros [H|H]; discriminate.
Qed.

Lemma serialize_ok_or_encode_error text :
  (exists k, _serialize_content text = Ok k)
  \/ _serialize_content text = Raise UnicodeEncodeError.
Proof.
  unfold _serialize_content.
  destruct (utf8_encode (str_of text)) as [bytes|] eqn:Ee; [left|now right].
  rewrite (utf8_decode_ascii _ (b64encode_ascii _ (utf8_encode_bytes _ _ Ee))).
  eauto.
Qed.

Lemma serialize_raises text :
  _serialize_content text = Raise UnicodeEncodeError
  <-> Exists unencodable (str_of text).
Proof.
  rewrite <- utf8_encode_none. unfold _serialize_content.
  destruct (utf8_encode (str_of text)) as [bytes|] eqn:Ee.
  - rewrite (utf8_decode_ascii _ (b64encode_ascii _ (utf8_encode_bytes _ _ Ee))).
    split; discriminate.
  - tauto.
Qed.

Lemma b64encode_shape bs :
  Forall (fun b => (b < 256)%N) bs ->
  Forall b64_symbol (b64encode bs)
  /\ (length (b64encode bs) = 4 * ((length bs + 2) / 3))%nat.
Proof.
  assert (Hc : forall v, (v < 64)%N -> b64_symbol (b64_char v)).
  { intros v Hv. left. rewrite (proj1 (b64_char_val v Hv)). eauto. }
  assert (Hp : b64_symbol PAD) by now right.
  induction bs as [|a|a b|a b c rest IH] using list_ind3; intros Hb.
  - split; [constructor|reflexivity].
  - apply Forall_cons in Hb as [Ha _]. split; [|reflexivity].
    cbn [b64encode].
    repeat (apply Forall_cons; split); try apply Forall_nil; auto; apply Hc; lia.
  - apply Forall_cons in Hb as [Ha Hb]. apply Forall_cons in Hb as [Hb _].
    split; [|reflexivity].
    cbn [b64encode].
    repeat (apply Forall_cons; split); try apply Forall_nil; auto; apply Hc; lia.
  - apply Forall_cons in Hb as [Ha Hb]. apply Forall_cons in Hb as [Hb Hc'].
    apply Forall_cons in Hc' as [Hc' Hrest]. destruct (IH Hrest) as [IH1 IH2].
    cbn [b64encode app length]. split.
    + repeat (apply Forall_cons; split; [apply Hc; lia|]). exact IH1.
    + rewrite IH2.
      replace (S (S (S (length rest))) + 2)%nat with (length rest + 2 + 1 * 3)%nat by lia.
      rewrite Nat.div_add by lia. lia.
Qed.

Lemma utf8_encode_nil s : utf8_encode s = Some [] -> s = [].
Proof.
  destruct s as [|c s]; [reflexivity|]. simpl.
  destruct (utf8_encode_char c) as [b|] eqn:Ec; [|discriminate].
  destruct (utf8_encode s); [|discriminate].
  intros [= H]. apply app_eq_nil in H as [-> _]. revert Ec.
  unfold utf8_encode_char. repeat (destruct (_ <? _)%N); try discriminate.
  destruct (_ && _); discriminate.
Qed.

Lemma serialize_key_iff c1 c2 k1 k2 :
  _serialize_content c1 = Ok k1 ->
  _serialize_content c2 = Ok k2 ->
  k1 = k2 <-> str_of c1 = str_of c2.
Proof.
  intros H1 H2. pose proof (deserialize_serialize _ _ H1) as D1.
  pose proof (deserialize_serialize _ _ H2) as D2. split.
  - intros ->. congruence.
  - intros E. unfold _serialize_content in H1, H2. rewrite E in H1. congruence.
Qed.

(** X12.  The codec is an exact inverse pair: decoding the key of a content gives
    its string back, and two contents have the same key exactly when their
    strings are equal (a dict and its rendering share one key). *)
Theorem serialize_roundtrip c1 c2 k1 k2 :
  _serialize_content c1 = Ok k1 ->
  _serialize_content c2 = Ok k2 ->
  _deserialize_content (CStr k1) = Ok (str_of c1)
  /\ (k1 = k2 <-> str_of c1 = str_of c2).
Proof.
  intros H1 H2. split.
  - exact (deserialize_serialize _ _ H1).
  - exact (serialize_key_iff _ _ _ _ H1 H2).
Qed.

(** X13.  A key is plain base64: every character is of the alphabet or the
    padding, its length is a multiple of four, and it is empty only for the
    empty string.  No key needs quoting in a CSV file. *)
Theorem serialized_key_shape c k :
  _serialize_content c = Ok k ->
  Forall b64_symbol k
  /\ (length k mod 4 = 0)%nat
  /\ (k = [] <-> str_of c = []).
Proof.
  unfold _serialize_content.
  destruct (utf8_encode (str_of c)) as [bytes|] eqn:Ee; [|discriminate].
  pose proof (utf8_encode_bytes _ _ Ee) as Hb.
  rewrite (utf8_decode_ascii _ (b64encode_ascii _ Hb)). intros [= <-].
  destruct (b64encode_shape _ Hb) as [Hs Hl].
  split; [exact Hs|]. split.
  - rewrite Hl, Nat.mul_comm. apply Nat.Div0.mod_mul.
  - split.
    + intros Hk. apply utf8_encode_nil. rewrite Ee. f_equal.
      destruct bytes as [|a [|b [|c' rest]]]; [reflexivity|discriminate..].
    + intros Hs'. rewrite Hs' in Ee. injection Ee as <-. reflexivity.
Qed.

End CodecExtras.

Section StoreExtras.

Import FileBasedStore.

Lemma drop_row_map {A B} (f : A -> B) i (l : list A) :
  drop_row i (map f l) = map f (drop_row i l).
Proof. unfold drop_row. now rewrite map_app, firstn_map, skipn_map. Qed.

(** X15.  When the index holds the query, [store] changes nothing: it answers
    false, or raises [FileNotFoundError] when the payload file of the row is
    missing.  The new answer is never written. *)
Theorem store_found_changes_nothing query result d kq ka entry_id :
  _serialize_content query = Ok kq ->
  _serialize_content result = Ok ka ->
  find_entry kq (index_of d) = Some entry_id ->
  exec (store query result) d = d
  /\ (is_Some (payload_files d !! entry_id) -> outcome (store query result) d = Ok false)
  /\ (payload_files d !! entry_id = None ->
      outcome (store query result) d = Raise FileNotFoundError).
Proof.
  intros Hq Ha Hf. unfold exec, outcome.
  rewrite (store_cases _ _ _ _ _ Hq Ha (find_entry_modelled _ _ _ Hf)), Hf.
  destruct (payload_files d !! entry_id) as [rows|]; repeat split;
    try reflexivity; try discriminate.
  intros [? ?]. discriminate.
Qed.

(** X16.  [remove] on an index of text keys (a field may also be empty), for a
    query whose key is read back as text.  When the key is among the fields
    of the index file, the first field that holds it is dropped and the
    payload file with the number of that row is deleted; every other field
    stays in order and every other payload file keeps its number and its
    content.  When the key is not among the fields, nothing changes.
    Nothing is raised and nothing is logged. *)
Theorem remove_effect query d kq rows :
  _serialize_content query = Ok kq ->
  read_as_text kq ->
  index_file d = Some rows ->
  text_table rows ->
  outcome (remove query) d = Ok tt
  /\ log (exec (remove query) d) = log d
  /\ (~ In kq rows -> exec (remove query) d = d)
  /\ (forall i,
      rows !! i = Some kq -> (forall j, (j < i)%nat -> rows !! j <> Some kq) ->
      index_file (exec (remove query) d) = Some (drop_row i rows)
      /\ payload_files (exec (remove query) d) = delete i (payload_files d)).
Proof.
  intros Hq Hkq Hi Ht. destruct (index_of_text _ _ Hi Ht) as [Hidx Hm].
  unfold exec, outcome. rewrite (remove_cases _ _ _ Hq Hm), Hidx.
  pose proof (find_entry_text kq rows (proj2 (plain_kind _ Hkq))) as Hf.
  destruct (find_entry kq (map as_text rows)) as [i|].
  - destruct Hf as [Hl Hfirst]. cbn [fst snd log index_file payload_files].
    split; [reflexivity|]. split; [reflexivity|]. split.
    + intros Hn. exfalso. apply Hn. eapply list_elem_of_In, list_elem_of_lookup_2, Hl.
    + intros i' Hl' Hfirst'.
      assert (i' = i) as ->.
      { destruct (Nat.lt_trichotomy i' i) as [H|[H|H]]; [|exact H|].
        - now destruct (Hfirst _ H).
        - now destruct (Hfirst' _ H). }
      rewrite drop_row_map, rewrite_rows. auto.
  - cbn [fst snd]. split; [reflexivity|]. split; [reflexivity|].
    split; [reflexivity|].
    intros i' Hl _. exfalso. apply Hf. eapply list_elem_of_In, list_elem_of_lookup_2, Hl.
Qed.

(** X14.  A content with a code point that UTF-8 cannot encode is refused by
    every operation with [UnicodeEncodeError], before the directory is
    touched; [_serialize_content] fails in no other case. *)
Theorem unencodable_content_raises query result d :
  (Exists unencodable (str_of query) <->
   _serialize_content query = Raise UnicodeEncodeError)
  /\ (Exists unencodable (str_of query) ->
      store query result d = (Raise UnicodeEncodeError, d)
      /\ remove query d = (Raise UnicodeEncodeError, d)
      /\ contains query d = (Raise UnicodeEncodeError, d)
      /\ retrieve query d = (Raise UnicodeEncodeError, d))
  /\ (Exists unencodable (str_of result) ->
      exec (store query result) d = d
      /\ outcome (store query result) d = Raise UnicodeEncodeError).
Proof.
  split; [symmetry; apply serialize_raises|]. split.
  - intros H. apply serialize_raises in H.
    unfold store, remove, contains, retrieve, bind, lift. rewrite H. auto.
  - intros H. apply serialize_raises in H.
    unfold exec, outcome, store, bind, lift.
    destruct (serialize_ok_or_encode_error query) as [[kq Hq]|Hq]; rewrite Hq; cbn.
    + rewrite H. split; reflexivity.
    + split; reflexivity.
Qed.

End StoreExtras.

Section ConsistentCache.

Import FileBasedStore.

Abbreviation entry := (content * content)%type.

Lemma storable_key c : storable c -> _serialize_content c = Ok (key c).
Proof. now intros [H _]. Qed.

Lemma consistent_rows d (es : list entry) :
  consistent d es -> text_table (map (fun e => key e.1) es).
Proof.
  intros (Hs & _). unfold text_table. rewrite Forall_map.
  eapply Forall_impl; [exact Hs|]. intros e [[_ H] _]. now right.
Qed.

Lemma consistent_index d (es : list entry) :
  consistent d es ->
  index_of d = map (fun e => CStr (key e.1)) es /\ index_modelled d.
Proof.
  intros Hc. pose proof (consistent_rows _ _ Hc) as Ht.
  destruct Hc as (Hs & Hi & _ & _).
  destruct (index_of_text _ _ Hi Ht) as [-> Hm]. split; [|exact Hm].
  rewrite map_map. apply map_ext_Forall. eapply Forall_impl; [exact Hs|].
  intros e [[_ H] _]. now apply as_text_plain.
Qed.

Lemma find_entry_entries (es : list entry) q kq :
  Forall (fun e => storable e.1 /\ storable e.2) es ->
  _serialize_content q = Ok kq ->
  match find_entry kq (map (fun e => CStr (key e.1)) es) with
  | Some i =>
      exists e, es !! i = Some e
        /\ List.find (fun e => bool_decide (str_of e.1 = str_of q)) es = Some e
  | None =>
      List.find (fun e => bool_decide (str_of e.1 = str_of q)) es = None
      /\ ~ In kq (map (fun e => key e.1) es)
  end.
Proof.
  intros Hs Hq. induction Hs as [|e es [[He _] _] _ IH]; [simpl; tauto|].
  cbn [map find_entry cell_is List.find].
  pose proof (serialize_key_iff _ _ _ _ He Hq) as Hiff.
  destruct (bool_decide (key e.1 = kq)) eqn:Ek.
  - apply bool_decide_eq_true_1 in Ek. apply Hiff in Ek.
    rewrite (bool_decide_eq_true_2 _ Ek). exists e. auto.
  - apply bool_decide_eq_false_1 in Ek.
    rewrite bool_decide_eq_false_2 by (intros H; apply Ek, Hiff, H).
    destruct (find_entry kq (map (fun e0 => CStr (key e0.1)) es)) as [i|]; simpl.
    + exact IH.
    + destruct IH as [IH1 IH2]. split; [exact IH1|]. intros [H|H]; auto.
Qed.

(** X17.  In a consistent cache (every key is read back as text) [retrieve]
    returns the answer filed for the query, [None] when there is none, and
    leaves the directory as it is; [contains] tells which of the two. *)
Theorem consistent_lookup d (es : list entry) q kq :
  consistent d es ->
  _serialize_content q = Ok kq ->
  retrieve q d = (Ok (stored_answer es q), d)
  /\ outcome (contains q) d = Ok (bool_decide (is_Some (stored_answer es q))).
Proof.
  intros Hc Hq. destruct (consistent_index _ _ Hc) as [Hi Hm].
  destruct Hc as (Hs & _ & Hp & _).
  pose proof (find_entry_entries es q kq Hs Hq) as Hf.
  unfold outcome. rewrite (retrieve_cases _ _ _ Hq Hm), (contains_cases _ _ _ Hq Hm), Hi.
  unfold stored_answer.
  destruct (find_entry kq _) as [i|].
  - destruct Hf as (e & Hl & ->). rewrite (Hp _ _ Hl).
    rewrite Forall_forall in Hs.
    destruct (Hs e) as [_ [Ha Ht]]; [eapply list_elem_of_lookup_2; eauto|].
    rewrite (read_csv_text [key e.2]) by (constructor; [now right|constructor]).
    cbn [map first_value fmap option_fmap option_map].
    rewrite (as_text_plain _ Ht), (deserialize_serialize _ _ Ha). auto.
  - destruct Hf as [-> _]. auto.
Qed.

(** X18.  [store] keeps a cache consistent and is write-once, for queries and
    answers whose keys are read back as text: a query that has an answer
    filed is left with it and the answer is false; a new query is appended
    with its answer and the answer is true. *)
Theorem consistent_store d (es : list entry) q a :
  consistent d es -> storable q -> storable a ->
  match stored_answer es q with
  | Some _ => store q a d = (Ok false, d)
  | None =>
      outcome (store q a) d = Ok true
      /\ consistent (exec (store q a) d) (es ++ [(q, a)])
  end.
Proof.
  intros Hc [Hq Hqt] [Ha Hat]. destruct (consistent_index _ _ Hc) as [Hi Hm].
  pose proof (consistent_rows _ _ Hc) as Ht.
  pose proof Hc as (Hs & Hidx & Hp & Hnd).
  pose proof (find_entry_entries es q (key q) Hs Hq) as Hf.
  unfold outcome, exec. rewrite (store_cases _ _ _ _ _ Hq Ha Hm), Hi.
  unfold stored_answer.
  destruct (find_entry (key q) _) as [i|].
  - destruct Hf as (e & Hl & ->). simpl. now rewrite (Hp _ _ Hl).
  - destruct Hf as [-> Hnin]. simpl. split; [reflexivity|].
    repeat split; cbn [index_file payload_files].
    + apply Forall_app. split; [exact Hs|]. repeat constructor; assumption.
    + rewrite !map_app, map_map. reflexivity.
    + intros j e Hl. rewrite length_map.
      apply lookup_app_Some in Hl as [Hl|[Hge Hl]].
      * rewrite lookup_insert_ne by (apply lookup_lt_Some in Hl; lia). eauto.
      * destruct (j - length es)%nat as [|n] eqn:En; [|destruct n; discriminate].
        injection Hl as <-. replace j with (length es) by lia.
        now rewrite lookup_insert_eq.
    + rewrite map_app. cbn [map fst]. apply NoDup_app. split; [exact Hnd|]. split.
      * intros x Hx Hx'. apply list_elem_of_In in Hx'. destruct Hx' as [<-|[]].
        apply Hnin. now apply list_elem_of_In.
      * apply NoDup_singleton.
Qed.

(** X19.  Removing the query that was stored last keeps the cache consistent:
    the other entries stay retrievable. *)
Theorem consistent_remove_last d (es : list entry) q a :
  consistent d (es ++ [(q, a)]) ->
  outcome (remove q) d = Ok tt
  /\ consistent (exec (remove q) d) es.
Proof.
  intros Hc. destruct (consistent_index _ _ Hc) as [Hi Hm].
  destruct Hc as (Hs & Hidx & Hp & Hnd).
  apply Forall_app in Hs as [Hs Hl]. apply Forall_cons in Hl as [[[Hq Hqt] _] _].
  cbn [fst] in Hq, Hqt.
  rewrite map_app in Hnd. apply NoDup_app in Hnd as (Hnd & Hnin & _).
  pose proof (find_entry_entries es q (key q) Hs Hq) as Hf.
  assert (Hnone : find_entry (key q) (map (fun e => CStr (key e.1)) es) = None).
  { destruct (find_entry (key q) _) as [i|] eqn:E; [|reflexivity].
    apply find_entry_lookup in E. rewrite list_lookup_fmap in E.
    destruct (es !! i) as [e|] eqn:El; [|discriminate]. injection E as E.
    exfalso. apply (Hnin (key q)).
    - apply list_elem_of_In, in_map_iff. exists e. split; [exact E|].
      eapply list_elem_of_In, list_elem_of_lookup_2; eauto.
    - now left. }
  unfold outcome, exec. rewrite (remove_cases _ _ _ Hq Hm), Hi.
  rewrite map_app. cbn [map fst].
  rewrite (find_entry_app_new _ _ Hnone), length_map.
  split; [reflexivity|]. cbn [snd].
  repeat split; cbn [index_file payload_files]; try assumption.
  - unfold drop_row. rewrite take_app_length', drop_ge, app_nil_r
      by (rewrite ?length_app, ?length_map; simpl; lia).
    rewrite map_map. reflexivity.
  - intros j e Hl. rewrite lookup_delete_ne by (apply lookup_lt_Some in Hl; lia).
    apply Hp. now apply lookup_app_l_Some.
Qed.

End ConsistentCache.

Section TypedColumns.

Import FileBasedStore.

(** X30.  The reader types a column by its fields, and a key can spell a truth
    value or a number.  The query with the key [TRUE] is not found again
    once it is stored: [contains] answers false, [retrieve] returns [None],
    and a second [store] answers true and rewrites the index with the row
    [True] before the new one.  An answer with the key [0400] is stored,
    and [retrieve] then raises [AttributeError]: the payload is read back
    as a number. *)
Theorem typed_keys_are_lost :
  let d1 := exec (store truth_query a1) empty_store in
  let d2 := exec (store truth_query a2) d1 in
  _serialize_content truth_query = Ok (py "TRUE")
  /\ outcome (store truth_query a1) empty_store = Ok true
  /\ index_file d1 = Some [py "TRUE"]
  /\ outcome (contains truth_query) d1 = Ok false
  /\ outcome (retrieve truth_query) d1 = Ok None
  /\ outcome (store truth_query a2) d1 = Ok true
  /\ index_file d2 = Some [py "True"; py "TRUE"]
  /\ _serialize_content number_answer = Ok (py "0400")
  /\ outcome (store q1 number_answer) empty_store = Ok true
  /\ outcome (retrieve q1) (exec (store q1 number_answer) empty_store)
     = Raise (AttributeError "encode").
Proof.
  cbv zeta. repeat split; vm_compute; reflexivity.
Qed.

End TypedColumns.

Section CacheExtrasExamples.

Import FileBasedStore.

Lemma consistent_empty : consistent empty_store [].
Proof.
  repeat split.
  - constructor.
  - intros i e H. rewrite lookup_nil in H. discriminate.
  - constructor.
Qed.

Lemma storable_samples : storable q1 /\ storable a1 /\ storable q2 /\ storable a2.
Proof. repeat split; vm_compute; reflexivity. Qed.

(** The cache after [store(q1, a1)] and [store(q2, a2)]. *)
Lemma consistent_two :
  consistent (exec (store q2 a2) (exec (store q1 a1) empty_store))
    [(q1, a1); (q2, a2)].
Proof.
  destruct storable_samples as (H1 & H2 & H3 & H4). repeat split.
  - repeat constructor; assumption.
  - intros [|[|i]] e H; simpl in H; try discriminate; injection H as <-;
      vm_compute; reflexivity.
  - vm_compute. repeat constructor; intros H; repeat (inversion H; subst; clear H);
      try match goal with H : _ ∈ _ |- _ => inversion H end.
Qed.

Lemma serialize_roundtrip_witness :
  _deserialize_content (CStr (py "cTE=")) = Ok (py "q1")
  /\ (py "cTE=" = py "cTI=" <-> str_of q1 = str_of q2).
Proof.
  exact (serialize_roundtrip q1 q2 (py "cTE=") (py "cTI=")
           ltac:(vm_compute; reflexivity) ltac:(vm_compute; reflexivity)).
Defined.

Lemma serialized_key_shape_witness :
  Forall b64_symbol (py "cTE=") /\ (length (py "cTE=") mod 4 = 0)%nat
  /\ (py "cTE=" = [] <-> str_of q1 = []).
Proof.
  exact (serialized_key_shape q1 (py "cTE=") ltac:(vm_compute; reflexivity)).
Defined.

(** A second answer for [q1] is not written. *)
Lemma store_found_changes_nothing_witness :
  exec (store q1 a2) (exec (store q1 a1) empty_store) = exec (store q1 a1) empty_store.
Proof.
  exact (proj1 (store_found_changes_nothing q1 a2 (exec (store q1 a1) empty_store)
                  (py "cTE=") (py "YTI=") 0%nat
                  ltac:(vm_compute; reflexivity) ltac:(vm_compute; reflexivity)
                  ltac:(vm_compute; reflexivity))).
Defined.

(** Two queries are stored and the first is removed: the index keeps the
    key of the second, and the payload file of the second keeps its
    number. *)
Lemma remove_effect_witness :
  index_file (exec (remove q1) (exec (store q2 a2) (exec (store q1 a1) empty_store)))
  = Some [py "cTI="]
  /\ payload_files (exec (remove q1) (exec (store q2 a2) (exec (store q1 a1) empty_store)))
     = {[ 1%nat := [py "YTI="] ]}.
Proof.
  destruct (remove_effect q1 (exec (store q2 a2) (exec (store q1 a1) empty_store))
              (py "cTE=") [py "cTE="; py "cTI="]
              ltac:(vm_compute; reflexivity) ltac:(vm_compute; reflexivity)
              ltac:(vm_compute; reflexivity)
              ltac:(constructor; [right; vm_compute; reflexivity|];
                    constructor; [right; vm_compute; reflexivity|constructor]))
    as (_ & _ & _ & H).
  destruct (H 0%nat eq_refl ltac:(intros j Hj; lia)) as [H1 H2].
  split; [rewrite H1; reflexivity|rewrite H2; vm_compute; reflexivity].
Defined.

Lemma consistent_lookup_witness :
  retrieve q2 (exec (store q2 a2) (exec (store q1 a1) empty_store))
  = (Ok (Some (py "a2")), exec (store q2 a2) (exec (store q1 a1) empty_store)).
Proof.
  exact (proj1 (consistent_lookup _ _ q2 (py "cTI=") consistent_two
                  ltac:(vm_compute; reflexivity))).
Defined.

Lemma consistent_store_witness :
  outcome (store q1 a1) empty_store = Ok true
  /\ consistent (exec (store q1 a1) empty_store) [(q1, a1)].
Proof.
  exact (consistent_store empty_store [] q1 a1 consistent_empty
           (proj1 storable_samples) (proj1 (proj2 storable_samples))).
Defined.

Lemma consistent_remove_last_witness :
  consistent (exec (remove q2) (exec (store q2 a2) (exec (store q1 a1) empty_store)))
    [(q1, a1)].
Proof.
  exact (proj2 (consistent_remove_last _ [(q1, a1)] q2 a2 consistent_two)).
Defined.

End CacheExtrasExamples.


(** ** The branch life cycle, continued *)

Section UrlAndNames.

Import GitManager.

Lemma startswith_app p s : startswith p (p ++ s) = true.
Proof. induction p as [|c p IH]; simpl; [reflexivity|]. now rewrite N.eqb_refl. Qed.

Lemma startswith_split p s : startswith p s = true -> s = p ++ drop (length p) s.
Proof.
  revert s. induction p as [|c p IH]; intros [|d s]; simpl; try discriminate; auto.
  intros H. apply andb_true_iff in H as [Hc Hp]. apply N.eqb_eq in Hc. subst.
  f_equal. now apply IH.
Qed.


(** A separator is a slash; a part holds none. *)
Lemma span_no_slash_app a rest :
  ~ In 47%N a -> (rest = [] \/ exists r, rest = 47%N :: r) ->
  span_no_slash (a ++ rest) = (a, rest).
Proof.
  intros Ha Hr. induction a as [|c a IH]; simpl.
  - destruct Hr as [->|[r ->]]; reflexivity.
  - destruct (c =? 47)%N eqn:Ec.
    + apply N.eqb_eq in Ec. subst. exfalso. apply Ha. now left.
    + rewrite IH; [reflexivity|]. intros H. apply Ha. now right.
Qed.

Lemma span_no_slash_spec s a rest :
  span_no_slash s = (a, rest) ->
  s = a ++ rest /\ ~ In 47%N a /\ (rest = [] \/ exists r, rest = 47%N :: r).
Proof.
  revert a rest. induction s as [|c s IH]; simpl; intros a rest.
  - intros [= <- <-]. repeat split; auto.
  - destruct (c =? 47)%N eqn:Ec.
    + apply N.eqb_eq in Ec. subst. intros [= <- <-]. repeat split; eauto.
    + destruct (span_no_slash s) as [a' b'] eqn:Es. intros [= <- <-].
      destruct (IH _ _ eq_refl) as (-> & Hn & Hr). repeat split; auto.
      intros [H|H]; [subst; now rewrite N.eqb_refl in Ec|auto].
Qed.

(** X20.  The URL pattern accepts exactly the strings
    [https://<domain>/<owner>/<repo>] followed by nothing or by a slash and
    anything, the three parts being non-empty and free of slashes; the parts
    are the groups. *)
Theorem match_repository_url_parts u domain owner repo :
  match_repository_url u = Some (domain, owner, repo)
  <-> (domain <> [] /\ owner <> [] /\ repo <> []
       /\ ~ In 47%N domain /\ ~ In 47%N owner /\ ~ In 47%N repo
       /\ exists tail,
            (tail = [] \/ exists r, tail = 47%N :: r)
            /\ u = py "https://" ++ domain ++ py "/" ++ owner ++ py "/"
                   ++ repo ++ tail).
Proof.
  unfold match_repository_url. split.
  - destruct (startswith (py "https://") u) eqn:Hs; [|discriminate].
    apply startswith_split in Hs. change (length (py "https://")) with 8%nat in Hs.
    destruct (span_no_slash (drop 8 u)) as [d r1] eqn:E1.
    destruct d as [|d0 d]; [discriminate|]. destruct r1 as [|c1 r1]; [discriminate|].
    destruct (span_no_slash r1) as [o r2] eqn:E2.
    destruct o as [|o0 o]; [discriminate|]. destruct r2 as [|c2 r2]; [discriminate|].
    destruct (span_no_slash r2) as [p r3] eqn:E3.
    destruct p as [|p0 p]; [discriminate|]. intros [= <- <- <-].
    apply span_no_slash_spec in E1 as (E1 & N1 & [H1|[x H1]]); [discriminate|].
    apply span_no_slash_spec in E2 as (E2 & N2 & [H2|[y H2]]); [discriminate|].
    apply span_no_slash_spec in E3 as (E3 & N3 & H3).
    injection H1 as -> ->. injection H2 as -> ->.
    repeat split; try discriminate; try assumption.
    exists r3. split; [exact H3|].
    etransitivity; [exact Hs|]. f_equal. rewrite E1, E2, E3. reflexivity.
  - intros (Hd & Ho & Hr & N1 & N2 & N3 & tail & Ht & ->).
    rewrite startswith_app.
    change (drop 8 (py "https://" ++ ?x)) with x.
    change (py "/") with [47%N]. cbn [app].
    rewrite (span_no_slash_app domain) by eauto.
    destruct domain as [|d0 d]; [congruence|]. cbv iota beta.
    rewrite (span_no_slash_app owner) by eauto.
    destruct owner as [|o0 o]; [congruence|]. cbv iota beta.
    rewrite (span_no_slash_app repo) by assumption.
    destruct repo as [|p0 p]; [congruence|]. reflexivity.
Qed.

End UrlAndNames.

Section CloneInvariant.

Import GitManager.

Lemma keeps_clone_bind {A B} (m : M State A) (k : A -> M State B) :
  keeps_clone m -> (forall a, keeps_clone (k a)) -> keeps_clone (bind m k).
Proof.
  intros Hm Hk s Hs. unfold exec, bind. specialize (Hm s Hs). unfold exec in Hm.
  destruct (m s) as [[a|e] s']; cbn [snd] in *; [apply Hk, Hm|exact Hm].
Qed.

Lemma keeps_clone_pure {A} (m : M State A) :
  (forall s, _source_tree (exec m s) = _source_tree s) -> keeps_clone m.
Proof. intros H s Hs. unfold initialized. now rewrite H. Qed.

Lemma keeps_clone_git c : keeps_clone (git c).
Proof.
  intros s [r Hr]. unfold exec, git, initialized. rewrite Hr.
  destruct (apply_cmd c r); cbn; rewrite ?Hr; eauto.
Qed.

Lemma keeps_clone_for_each {A} (l : list A) body :
  (forall x, keeps_clone (body x)) -> keeps_clone (for_each l body).
Proof.
  intros Hb. induction l as [|x l IH]; simpl.
  - apply keeps_clone_pure. reflexivity.
  - apply keeps_clone_bind; auto.
Qed.

Create HintDb clone.

#[local] Hint Resolve keeps_clone_git keeps_clone_for_each : clone.
#[local] Hint Extern 1 (keeps_clone (bind _ _)) =>
  apply keeps_clone_bind; [|intros ?] : clone.
#[local] Hint Extern 2 (keeps_clone _) =>
  apply keeps_clone_pure; intros ?; reflexivity : clone.
#[local] Hint Extern 3 (keeps_clone (match ?x with _ => _ end)) => destruct x : clone.
#[local] Hint Extern 3 (keeps_clone (if ?x then _ else _)) => destruct x : clone.

Lemma keeps_clone_guard : keeps_clone guard_initialized.
Proof.
  apply keeps_clone_pure. intros s. unfold exec, guard_initialized.
  destruct (_source_tree s) eqn:E; cbn; congruence.
Qed.

Lemma keeps_clone_attr a : keeps_clone (source_tree_attr a).
Proof.
  apply keeps_clone_pure. intros s. unfold exec, source_tree_attr.
  destruct (_source_tree s) eqn:E; cbn; congruence.
Qed.

#[local] Hint Resolve keeps_clone_guard keeps_clone_attr : clone.

Lemma keeps_clone_current_revision : keeps_clone _current_revision_id.
Proof. unfold _current_revision_id. auto with clone. Qed.

Lemma keeps_clone_retrieve b : keeps_clone (_retrieve_changesets b).
Proof. unfold _retrieve_changesets. auto 6 with clone. Qed.

#[local] Hint Resolve keeps_clone_current_revision keeps_clone_retrieve : clone.

Lemma keeps_clone_should_remove b a i : keeps_clone (_should_remove_branch b a i).
Proof. unfold _should_remove_branch. auto 8 with clone. Qed.

Lemma keeps_clone_remove_branch b : keeps_clone (_remove_branch b).
Proof. unfold _remove_branch. auto with clone. Qed.

#[local] Hint Resolve keeps_clone_should_remove keeps_clone_remove_branch : clone.

Lemma keeps_clone_cleanup a i : keeps_clone (_cleanup_obsolete_branches a i).
Proof.
  unfold _cleanup_obsolete_branches, _find_automation_branches.
  auto 8 with clone.
Qed.

Lemma keeps_clone_determine : keeps_clone _determine_main_branch.
Proof.
  intros s Hs. unfold exec, _determine_main_branch.
  destruct Hs as [r Hr]. unfold bind, source_tree_attr. rewrite Hr.
  unfold initialized. destruct (origin_head r); cbn; rewrite Hr; eauto.
Qed.

#[local] Hint Resolve keeps_clone_cleanup keeps_clone_determine : clone.

Lemma keeps_clone_tail :
  keeps_clone
    (bind (_configure_author_info bot_name bot_email) (fun _ =>
     bind _current_revision_id (fun latest_commit =>
     bind (_cleanup_obsolete_branches (py "Timo") latest_commit) (fun _ =>
     _check_branch_presence latest_commit)))).
Proof.
  unfold _configure_author_info, _check_branch_presence. auto 10 with clone.
Qed.

Lemma initialize_run s :
  initialize s =
    match _extract_repository_info s with
    | (Ok _, s1) =>
        match remote s1 with
        | Some tree =>
            bind (_configure_author_info bot_name bot_email) (fun _ =>
            bind _current_revision_id (fun latest_commit =>
            bind (_cleanup_obsolete_branches (py "Timo") latest_commit) (fun _ =>
            _check_branch_presence latest_commit))) (with_tree s1 tree)
        | None => (Raise GitCommandError, s1)
        end
    | (Raise e, s1) => (Raise e, s1)
    end.
Proof.
  unfold initialize, bind at 1.
  destruct (_extract_repository_info s) as [[[]|e] s1]; [|reflexivity].
  unfold bind at 1, clone_from. destruct (remote s1); reflexivity.
Qed.

(** X22.  No operation loses the working clone: once [initialize] has set it, it
    stays set through every public method, however the method ends.  And
    [initialize] returns only with the clone set. *)
Theorem clone_is_kept identifier message title body base :
  keeps_clone (create_feature_branch identifier)
  /\ keeps_clone (stage_and_record message)
  /\ keeps_clone (create_merge_request title body base)
  /\ keeps_clone publish_and_verify_remote
  /\ keeps_clone initialize
  /\ (forall s b, outcome initialize s = Ok b -> initialized (exec initialize s)).
Proof.
  repeat split.
  - unfold create_feature_branch. auto 10 with clone.
  - unfold stage_and_record. auto 10 with clone.
  - unfold create_merge_request. auto 12 with clone.
  - unfold publish_and_verify_remote. auto 10 with clone.
  - intros s Hs. unfold exec. rewrite initialize_run.
    destruct (_extract_repository_info s) as [[[]|e] s1] eqn:E1.
    + assert (H1 : initialized s1).
      { revert E1. unfold _extract_repository_info, bind, get.
        destruct (match_repository_url _) as [[[? ?] ?]|]; cbn; intros [= <-]; exact Hs. }
      destruct (remote s1) as [tree|]; [|exact H1].
      apply (keeps_clone_tail (with_tree s1 tree)). red. cbn. eauto.
    + cbn [snd]. revert E1. unfold _extract_repository_info, bind, get.
      destruct (match_repository_url _) as [[[? ?] ?]|]; cbn; intros [= _ <-]; exact Hs.
  - intros s b. unfold outcome, exec. rewrite initialize_run.
    destruct (_extract_repository_info s) as [[[]|e] s1]; [|discriminate].
    destruct (remote s1) as [tree|]; [|discriminate].
    intros _. apply (keeps_clone_tail (with_tree s1 tree)). red. cbn. eauto.
Qed.

End CloneInvariant.

Section BranchOperations.

Import GitManager.

Lemma with_tree_same s r : _source_tree s = Some r -> with_tree s r = s.
Proof. destruct s; cbn. now intros ->. Qed.

Lemma with_tree_twice s r r' : with_tree (with_tree s r) r' = with_tree s r'.
Proof. reflexivity. Qed.

Lemma git_run c s r r' :
  _source_tree s = Some r -> apply_cmd c r = Ok r' ->
  git c s = (Ok tt, with_tree s r').
Proof. intros H E. unfold git. now rewrite H, E. Qed.

Lemma git_fails c s r e :
  _source_tree s = Some r -> apply_cmd c r = Raise e -> git c s = (Raise e, s).
Proof. intros H E. unfold git. now rewrite H, E. Qed.

Lemma guard_run s r : _source_tree s = Some r -> guard_initialized s = (Ok r, s).
Proof. intros H. unfold guard_initialized. now rewrite H. Qed.

Lemma is_listed_In name r : is_listed name r = true <-> In name (map fst (branches r)).
Proof.
  unfold is_listed. rewrite existsb_exists, in_map_iff. split.
  - intros (e & He & H). apply bool_decide_eq_true_1 in H. eauto.
  - intros (e & H & He). exists e. split; [exact He|]. now apply bool_decide_eq_true_2.
Qed.

(** [git push origin --delete b]: the remote loses the branch, or the
    command fails because the remote has no such branch. *)
Lemma push_delete_cases b r :
  let remote_b := py "remotes/origin/" ++ b in
  match apply_cmd (PushDelete (py "origin") b) r with
  | Ok r' =>
      In remote_b (map fst (branches r))
      /\ journal r' = journal r ++ [PushDelete (py "origin") b]
      /\ branches r'
         = List.filter (fun e => negb (bool_decide (e.1 = remote_b))) (branches r)
  | Raise e => e = GitCommandError /\ ~ In remote_b (map fst (branches r))
  end.
Proof.
  intros remote_b. unfold apply_cmd.
  change (py "remotes/" ++ py "origin" ++ py "/" ++ b) with remote_b.
  destruct (is_listed remote_b r) eqn:E.
  - apply is_listed_In in E. auto.
  - split; [reflexivity|]. intros H. apply is_listed_In in H. congruence.
Qed.

Lemma remove_branch_unfold branch s r :
  _source_tree s = Some r ->
  _remove_branch branch s = git (PushDelete (py "origin") (remote_name branch)) s.
Proof. intros H. unfold _remove_branch, bind. now rewrite (guard_run _ _ H). Qed.

(** One round of the cleanup loop. *)
Lemma cleanup_round branch author id s r :
  _source_tree s = Some r ->
  let round :=
    bind (_should_remove_branch branch author id)
      (fun doomed : bool => if doomed then _remove_branch branch else ret tt) in
  round s = (Ok tt, s)
  \/ round s = (Raise GitCommandError, s)
  \/ (exists r',
        round s = (Ok tt, with_tree s r')
        /\ journal r' = journal r ++ [PushDelete (py "origin") (remote_name branch)]
        /\ incl (branches r') (branches r)
        /\ str_in id branch = false
        /\ exists c cs, In (branch, c :: cs) (branches r) /\ author_name c = author).
Proof.
  intros Hs round. unfold round, bind, _should_remove_branch.
  destruct (str_in id branch) eqn:Hid; [now left|].
  unfold bind, _retrieve_changesets, bind. rewrite (guard_run _ _ Hs).
  destruct (List.find _ (branches r)) as [[name commits]|] eqn:Hf; [|now right; left].
  apply find_some in Hf as [Hin Hn]. cbn in Hn. apply bool_decide_eq_true_1 in Hn.
  subst name. cbn [snd ret].
  destruct commits as [|c cs]; [now left|].
  destruct (bool_decide (author_name c = author)) eqn:Ha; [|now left].
  apply bool_decide_eq_true_1 in Ha. cbn. rewrite (remove_branch_unfold _ _ _ Hs).
  pose proof (push_delete_cases (remote_name branch) r) as Hp. cbv zeta in Hp.
  destruct (apply_cmd (PushDelete (py "origin") (remote_name branch)) r) as [r'|e] eqn:E.
  - right. right. exists r'. rewrite (git_run _ _ _ _ Hs E).
    destruct Hp as (_ & Hj & Hb). split; [reflexivity|]. split; [exact Hj|]. split.
    + rewrite Hb. intros x Hx. apply filter_In in Hx. tauto.
    + eauto.
  - right. left. destruct Hp as [-> _]. apply (git_fails _ _ _ _ Hs E).
Qed.

Lemma cleanup_loop r0 author id (l : list str) :
  Forall (fun name => str_in (py "tech-debt-bot-") name = true) l ->
  forall s r,
    _source_tree s = Some r ->
    incl (branches r) (branches r0) ->
    exists r' dels,
      exec (for_each l (fun branch =>
              bind (_should_remove_branch branch author id)
                (fun doomed : bool =>
                   if doomed then _remove_branch branch else ret tt))) s
        = with_tree s r'
      /\ journal r' = journal r ++ map (PushDelete (py "origin")) dels
      /\ Forall (justified r0 author id) dels.
Proof.
  induction 1 as [|branch l Hpat _ IH]; intros s r Hs Hincl.
  - exists r, []. cbn. rewrite app_nil_r. split; [now rewrite with_tree_same|].
    split; [reflexivity|constructor].
  - cbn [for_each]. unfold exec, bind at 1.
    destruct (cleanup_round branch author id s r Hs)
      as [E|[E|(r1 & E & Hj & Hi & Hid & c & cs & Hin & Ha)]];
      cbv zeta in E; rewrite E.
    + apply (IH s r Hs Hincl).
    + exists r, []. cbn. rewrite app_nil_r. split; [now rewrite with_tree_same|].
      split; [reflexivity|constructor].
    + destruct (IH (with_tree s r1) r1 eq_refl) as (r' & dels & E' & Hj' & Hd).
      { intros e He. apply Hincl, Hi, He. }
      exists r', (remote_name branch :: dels). unfold exec in E'.
      split; [rewrite E'; reflexivity|]. split.
      * rewrite Hj', Hj, <- app_assoc. reflexivity.
      * constructor; [|exact Hd]. exists branch, c, cs. auto 6.
Qed.

Lemma str_in_app_l p a s : str_in p s = true -> str_in p (a ++ s) = true.
Proof.
  intros H. induction a as [|c a IH]; [exact H|].
  cbn [app str_in]. rewrite IH. apply orb_true_r.
Qed.

(** X23.  Cleanup is safe: whatever it deletes on the remote stands for a listed
    automation branch whose name does not hold the current revision id and
    whose newest commit is by the author it was given.  Nothing but the
    clone changes. *)
Theorem cleanup_deletes_only_justified author id s r :
  _source_tree s = Some r ->
  exists r' dels,
    exec (_cleanup_obsolete_branches author id) s = with_tree s r'
    /\ deleted (exec (_cleanup_obsolete_branches author id) s) = deleted s ++ dels
    /\ Forall (justified r author id) dels.
Proof.
  intros Hs.
  destruct (cleanup_loop r author id
              (map (branch_line r)
                 (List.filter (str_in (py "tech-debt-bot-")) (map fst (branches r)))))
    with (s := s) (r := r) as (r' & dels & E & Hj & Hd); auto.
  { apply Forall_forall. intros x Hx.
    apply list_elem_of_fmap in Hx as (y & -> & Hy).
    apply list_elem_of_In, filter_In in Hy as [_ Hy].
    unfold branch_line. destruct (bool_decide _); [|exact Hy].
    now apply str_in_app_l. }
  { intros e He. exact He. }
  exists r', dels.
  assert (E' : exec (_cleanup_obsolete_branches author id) s = with_tree s r').
  { unfold exec, _cleanup_obsolete_branches, bind at 1, _find_automation_branches, bind.
    rewrite (guard_run _ _ Hs). exact E. }
  split; [exact E'|]. split; [|exact Hd].
  rewrite E'. unfold deleted. rewrite Hs. cbn [with_tree _source_tree].
  rewrite Hj, flat_map_app. f_equal.
  clear. induction dels as [|b dels IH]; [reflexivity|].
  cbn [map flat_map app]. f_equal. exact IH.
Qed.

Lemma remove_all_from_skip old x b :
  remove_all_from old (length x) (x ++ b) = remove_all_from old 0 b.
Proof. induction x as [|c x IH]; [reflexivity|]. exact IH. Qed.

Lemma remove_all_from_absent old b :
  str_in old b = false -> remove_all_from old 0 b = b.
Proof.
  induction b as [|c b IH]; [reflexivity|]. cbn [str_in remove_all_from].
  intros H. apply orb_false_iff in H as [H1 H2]. rewrite H1. f_equal. auto.
Qed.

Lemma remove_all_from_prefix old b :
  old <> [] -> remove_all_from old 0 (old ++ b) = remove_all_from old 0 b.
Proof.
  destruct old as [|c o]; [congruence|]. intros _.
  change ((c :: o) ++ b) with (c :: (o ++ b)). cbn [remove_all_from].
  change (c :: (o ++ b)) with ((c :: o) ++ b). rewrite startswith_app.
  cbn [length]. rewrite Nat.sub_1_r. cbn [Nat.pred]. apply remove_all_from_skip.
Qed.

Lemma startswith_str_in p s : startswith p s = true -> str_in p s = true.
Proof. intros H. destruct s; simpl in *; now rewrite H. Qed.

Lemma remote_name_short b :
  str_in (py "remotes/origin/") b = false ->
  remote_name (py "remotes/origin/" ++ b) = b /\ remote_name b = b.
Proof.
  intros H. unfold remote_name. split.
  - rewrite startswith_app, remove_all_from_prefix by discriminate.
    now apply remove_all_from_absent.
  - destruct (startswith (py "remotes/origin/") b) eqn:E; [|reflexivity].
    apply startswith_str_in in E. congruence.
Qed.

(** X24.  [_remove_branch] deletes a branch of the remote under its short name
    [b], whether it is given that name or the listed name
    [remotes/origin/<b>] ([b] not holding that prefix again).  When the
    remote has the branch (the clone lists it), the deletion is pushed and
    the listing loses the entry; when the remote has no such branch, the
    push fails: [GitCommandError] is raised and nothing changes. *)
Theorem remove_branch_deletes_short_name b s r :
  _source_tree s = Some r ->
  str_in (py "remotes/origin/") b = false ->
  let listed_name := py "remotes/origin/" ++ b in
  _remove_branch b s = _remove_branch listed_name s
  /\ (In listed_name (listed s) ->
      outcome (_remove_branch listed_name) s = Ok tt
      /\ deleted (exec (_remove_branch listed_name) s) = deleted s ++ [b]
      /\ ~ In listed_name (listed (exec (_remove_branch listed_name) s)))
  /\ (~ In listed_name (listed s) ->
      _remove_branch listed_name s = (Raise GitCommandError, s)).
Proof.
  intros Hs Hb listed_name. destruct (remote_name_short b Hb) as [H1 H2].
  assert (El : _remove_branch listed_name s = git (PushDelete (py "origin") b) s).
  { rewrite (remove_branch_unfold _ _ _ Hs). unfold listed_name. now rewrite H1. }
  assert (Es : _remove_branch b s = git (PushDelete (py "origin") b) s).
  { rewrite (remove_branch_unfold _ _ _ Hs). now rewrite H2. }
  unfold outcome, exec. rewrite Es, El. split; [reflexivity|].
  pose proof (push_delete_cases b r) as Hp. cbv zeta in Hp. fold listed_name in Hp.
  unfold listed at 1 3. rewrite Hs.
  destruct (apply_cmd (PushDelete (py "origin") b) r) as [r'|e] eqn:E.
  - destruct Hp as (Hin & Hj & Hbr). split; [|tauto]. intros _.
    rewrite (git_run _ _ _ _ Hs E). cbn [fst snd].
    split; [reflexivity|]. split.
    + unfold deleted. rewrite Hs. cbn [with_tree _source_tree].
      rewrite Hj, flat_map_app. reflexivity.
    + unfold listed. cbn [with_tree _source_tree]. rewrite Hbr.
      intros Hin'. apply in_map_iff in Hin' as (x & Hx & Hin').
      apply filter_In in Hin' as [_ Hin'].
      apply negb_true_iff, bool_decide_eq_false_1 in Hin'. congruence.
  - destruct Hp as [-> Hn]. split; [tauto|]. intros _. apply (git_fails _ _ _ _ Hs E).
Qed.



(** X26.  When the remote HEAD reference cannot be resolved,
    [create_feature_branch] raises after it has recorded the new branch
    name: the error is logged, no branch is checked out, and
    [_feature_branch_name] names a branch that does not exist. *)
Theorem create_feature_branch_without_default identifier s r :
  _source_tree s = Some r ->
  origin_head r = None ->
  let s' := exec (create_feature_branch identifier) s in
  outcome (create_feature_branch identifier) s = Raise GitCommandError
  /\ _feature_branch_name s' = feature_branch_name identifier r
  /\ _source_tree s' = Some r
  /\ log s' = log s ++ [LogError "Failed to determine the default branch"].
Proof.
  intros Hs Ho s'. subst s'. destruct s as [ws det tree fname rem st snt lg].
  cbn in Hs. subst tree.
  unfold outcome, exec, create_feature_branch, bind, _current_revision_id, bind,
    guard_initialized, _determine_main_branch, bind, source_tree_attr.
  cbn [_source_tree ret set_feature_branch_name]. rewrite Ho.
  repeat split; reflexivity.
Qed.

(** X27.  On an initialised manager [create_merge_request] returns normally
    whatever the hosting API answers: one request is sent, with the feature
    branch as head and the given base; status 201 logs nothing, any other
    status logs five error records. *)
Theorem create_merge_request_never_raises title body base s r :
  _source_tree s = Some r ->
  let s' := exec (create_merge_request title body base) s in
  outcome (create_merge_request title body base) s = Ok tt
  /\ (exists request,
        sent s' = sent s ++ [request]
        /\ head request = _feature_branch_name s
        /\ GitManager.base request = base
        /\ GitManager.title request = title
        /\ GitManager.body request = body)
  /\ (api_status s = 201 -> log s' = log s)
  /\ (api_status s <> 201 -> length (log s') = (length (log s) + 5)%nat)
  /\ _source_tree s' = Some r.
Proof.
  intros Hs s'. unfold s', outcome, exec, create_merge_request, bind.
  rewrite (guard_run _ _ Hs). cbn [get send].
  destruct (api_status s =? 201) eqn:E.
  - apply Z.eqb_eq in E. cbn. repeat split; eauto.
    + eexists. split; [reflexivity|]. cbn. auto.
    + congruence.
  - apply Z.eqb_neq in E. cbn. repeat split; eauto.
    + eexists. split; [reflexivity|]. cbn. auto.
    + congruence.
    + intros _. rewrite !length_app. cbn. lia.
Qed.

(** X28.  On an initialised manager [publish_and_verify_remote] runs exactly one
    push: with upstream set for a branch that has none, a plain one
    otherwise.  Afterwards the branch has an upstream, so that a second call
    is a plain push. *)
Theorem publish_sets_upstream_once s r :
  _source_tree s = Some r ->
  let s1 := exec publish_and_verify_remote s in
  outcome publish_and_verify_remote s = Ok tt
  /\ (exists r1, _source_tree s1 = Some r1
        /\ journal r1 = journal r
             ++ [match upstream r with
                 | None => PushSetUpstream (py "origin") (active_branch r)
                 | Some _ => Push
                 end]
        /\ is_Some (upstream r1)
        /\ exists r2, _source_tree (exec publish_and_verify_remote s1) = Some r2
             /\ journal r2 = journal r1 ++ [Push]).
Proof.
  intros Hs s1.
  assert (Hpush : forall s0 r0 u, _source_tree s0 = Some r0 -> upstream r0 = Some u ->
            publish_and_verify_remote s0
            = (Ok tt, with_tree s0 (mkRepo (head_commit r0) (branches r0) (origin_head r0)
                         (active_branch r0) (tracked r0) (journal r0 ++ [Push])))).
  { intros s0 r0 u H0 Hu. unfold publish_and_verify_remote, bind, source_tree_attr.
    rewrite H0, Hu. now apply (git_run _ _ r0). }
  unfold s1, outcome, exec. destruct (upstream r) as [u|] eqn:Hu.
  - rewrite (Hpush s r u Hs Hu). cbn [fst snd]. split; [reflexivity|].
    eexists. split; [reflexivity|]. split; [reflexivity|].
    split; [unfold upstream in *; cbn; eauto|].
    erewrite Hpush; [|reflexivity|exact Hu]. eexists. split; reflexivity.
  - set (r1 := mkRepo (head_commit r)
                 (if is_listed (py "remotes/" ++ py "origin" ++ py "/" ++ active_branch r) r
                  then branches r
                  else branches r
                       ++ [(py "remotes/" ++ py "origin" ++ py "/" ++ active_branch r,
                            commits_of (active_branch r) r)])
                 (origin_head r) (active_branch r)
                 (<[active_branch r := py "origin" ++ py "/" ++ active_branch r]>
                    (tracked r))
                 (journal r ++ [PushSetUpstream (py "origin") (active_branch r)])).
    assert (Hfirst : publish_and_verify_remote s = (Ok tt, with_tree s r1)).
    { unfold publish_and_verify_remote, bind, source_tree_attr. rewrite Hs, Hu.
      now apply (git_run _ _ r). }
    assert (Hu' : upstream r1 = Some (py "origin" ++ py "/" ++ active_branch r)).
    { unfold upstream. cbn. apply lookup_insert_eq. }
    rewrite Hfirst. cbn [fst snd]. split; [reflexivity|].
    exists r1. split; [reflexivity|]. split; [reflexivity|].
    split; [rewrite Hu'; eauto|].
    rewrite (Hpush (with_tree s r1) r1 _ eq_refl Hu'). eexists. split; reflexivity.
Qed.

(** X21.  A repository URL that the pattern does not accept stops [initialize]
    at once: the usage error is raised and logged, nothing is cloned, and
    the manager stays as it was. *)
Theorem initialize_invalid_url s :
  match_repository_url (repository_url (_repo_details s)) = None ->
  outcome initialize s = Raise InvalidRepositoryURL
  /\ _source_tree (exec initialize s) = _source_tree s
  /\ _repo_details (exec initialize s) = _repo_details s
  /\ log (exec initialize s) = log s ++ [LogError "Invalid repository URL."].
Proof.
  intros H. unfold outcome, exec. rewrite initialize_run.
  unfold _extract_repository_info, bind, get. rewrite H. cbn. auto.
Qed.

End BranchOperations.

Section GitExtrasExamples.

Import GitManager.

(** With the bot as author, cleanup on the sample clone deletes the branch
    the bot left behind and no other. *)
Lemma cleanup_deletes_only_justified_witness :
  exists r' dels,
    exec (_cleanup_obsolete_branches bot_name (py "0a1b2c3")) working_manager
      = with_tree working_manager r'
    /\ deleted (exec (_cleanup_obsolete_branches bot_name (py "0a1b2c3")) working_manager)
       = deleted working_manager ++ dels
    /\ Forall (justified sample_remote bot_name (py "0a1b2c3")) dels.
Proof.
  exact (cleanup_deletes_only_justified bot_name (py "0a1b2c3") working_manager
           sample_remote eq_refl).
Defined.


Lemma create_feature_branch_without_default_witness :
  outcome (create_feature_branch (py "T9")) headless_manager = Raise GitCommandError
  /\ _feature_branch_name (exec (create_feature_branch (py "T9")) headless_manager)
     = py "tech-debt-bot-T9-0a1b2c3".
Proof.
  destruct (create_feature_branch_without_default (py "T9") headless_manager
              headless_remote eq_refl eq_refl) as (H1 & H2 & _).
  split; [exact H1|exact H2].
Defined.

Lemma create_merge_request_never_raises_witness :
  outcome (create_merge_request (py "Fix") (py "Details") (py "main")) refused_manager
  = Ok tt.
Proof.
  exact (proj1 (create_merge_request_never_raises (py "Fix") (py "Details") (py "main")
                  refused_manager sample_remote eq_refl)).
Defined.

(** The stale branch of the bot is on the remote and is deleted; a branch
    the remote does not have is not. *)
Lemma remove_branch_deletes_short_name_witness :
  deleted (exec (_remove_branch stale_bot_branch) working_manager)
  = [py "tech-debt-bot-T1-1111111"]
  /\ _remove_branch (py "remotes/origin/tech-debt-bot-T0-0000000") working_manager
     = (Raise GitCommandError, working_manager).
Proof.
  split.
  - refine (proj1 (proj2 (proj1 (proj2 (remove_branch_deletes_short_name
             (py "tech-debt-bot-T1-1111111") working_manager sample_remote eq_refl _)) _))).
    + vm_compute. reflexivity.
    + vm_compute. tauto.
  - refine (proj2 (proj2 (remove_branch_deletes_short_name
             (py "tech-debt-bot-T0-0000000") working_manager sample_remote eq_refl _)) _).
    + vm_compute. reflexivity.
    + vm_compute. intuition discriminate.
Defined.

Lemma publish_sets_upstream_once_witness :
  outcome publish_and_verify_remote headless_manager = Ok tt.
Proof.
  exact (proj1 (publish_sets_upstream_once headless_manager headless_remote eq_refl)).
Defined.

Lemma initialize_invalid_url_witness :
  outcome initialize ssh_manager = Raise InvalidRepositoryURL.
Proof.
  exact (proj1 (initialize_invalid_url ssh_manager ltac:(vm_compute; reflexivity))).
Defined.

End GitExtrasExamples.


(** ** The surrounding-lines parser *)

Section ParserProperties.

Import LinearTextParser.

Lemma take_plus {A} x y (l : list A) :
  take (x + y) l = take x l ++ take y (drop x l).
Proof.
  revert l. induction x as [|x IH]; intros [|a l]; simpl; auto.
  - now rewrite take_nil.
  - now rewrite IH.
Qed.

Lemma lines_from_to_split {A} (l : list A) first a b last :
  1 <= first <= a -> a <= b + 1 -> b <= last -> last <= len l ->
  lines_from_to l first last
    = lines_from_to l first (a - 1) ++ lines_from_to l a b
      ++ lines_from_to l (b + 1) last.
Proof.
  intros H1 H2 H3 H4. unfold lines_from_to.
  replace (Z.to_nat (last - first + 1))
    with (Z.to_nat (a - 1 - first + 1) + (Z.to_nat (b - a + 1)
          + Z.to_nat (last - (b + 1) + 1)))%nat by lia.
  rewrite !take_plus, !drop_drop. repeat f_equal; lia.
Qed.

Lemma length_lines_from_to {A} (l : list A) first last :
  1 <= first -> first <= last + 1 -> last <= len l ->
  len (lines_from_to l first last) = last - first + 1.
Proof.
  intros H1 H2 H3. unfold lines_from_to, len in *.
  rewrite length_take, length_drop. lia.
Qed.

(** X29.  The parser returns the lines of the section together with up to
    [margin] lines on either side, joined by newlines: the lines
    [max(1, a - margin) .. min(n, b + margin)] of the text.  Within the text
    the section itself is in the result, after [min(margin, a - 1)] lines and
    before [min(margin, n - b)] lines. *)
Theorem parse_surrounding_content_selects text a b margin :
  let self := mkParser text (a, b) margin in
  let text_lines := splitlines text in
  let first := Z.max 1 (a - margin) in
  let last := Z.min (len text_lines) (b + margin) in
  0 <= b + margin ->
  parse_surrounding_content self = join [LF] (lines_from_to text_lines first last)
  /\ (0 <= margin -> 1 <= a -> a <= b -> b <= len text_lines ->
      exists before after,
        lines_from_to text_lines first last
          = before ++ lines_from_to text_lines a b ++ after
        /\ len before = Z.min margin (a - 1)
        /\ len after = Z.min margin (len text_lines - b)).
Proof.
  intros self text_lines first last Hb. split.
  - unfold parse_surrounding_content, _normalize_limits. cbn [_section_range _margin _text self].
    fold text_lines. f_equal.
    set (start_idx := if a - (margin + 1) <? 0 then 0 else a - (margin + 1)).
    set (end_idx := if b + margin >? len text_lines then len text_lines else b + margin).
    assert (Hs : start_idx = first - 1).
    { unfold start_idx, first. destruct (Z.ltb_spec (a - (margin + 1)) 0); lia. }
    assert (He : end_idx = last).
    { unfold end_idx, last. destruct (Z.gtb_spec (b + margin) (len text_lines)); lia. }
    rewrite Hs, He. unfold py_slice, lines_from_to, slice_bound.
    destruct (first - 1 <? 0) eqn:E1; [apply Z.ltb_lt in E1; unfold first in E1; lia|].
    destruct (last <? 0) eqn:E2; [apply Z.ltb_lt in E2; unfold last, len in E2; lia|].
    destruct (Z.le_gt_cases (first - 1) (len text_lines)) as [H|H].
    + rewrite (Nat.min_l (Z.to_nat (first - 1))) by (unfold len in H; lia).
      f_equal. unfold last, len in *. lia.
    + rewrite (Nat.min_r (Z.to_nat (first - 1))) by (unfold len in H; lia).
      rewrite !drop_ge by (unfold len in H; lia). now rewrite !take_nil.
  - intros Hm Ha Hab Hbn.
    exists (lines_from_to text_lines first (a - 1)),
           (lines_from_to text_lines (b + 1) last).
    split; [apply lines_from_to_split; unfold first, last; lia|].
    split; rewrite length_lines_from_to; unfold first, last; lia.
Qed.

End ParserProperties.

Section ParserExamples.

Import LinearTextParser.

(** Line 3 with a margin of one line: lines 2 to 4. *)
Lemma parse_surrounding_content_selects_witness :
  parse_surrounding_content (mkParser five_lines (3, 3) 1) = py "two
three
four".
Proof.
  refine (eq_trans (proj1 (parse_surrounding_content_selects five_lines 3 3 1 _)) _).
  - lia.
  - vm_compute. reflexivity.
Defined.

End ParserExamples.
